(** * Vesktop screen-share picker: audio source selection and stream quality

    A shallow embedding of [src/renderer/components/ScreenSharePicker.tsx]:
    the property matcher [hasMatchingProps], the candidate builder
    [mapToAudioItem], the selection logic [isSelected] / [update] of
    [AudioSourcePickerLinux], the label filter [uniqueName], the
    [STREAM_CLOSE] subscriber, the stream option patch [patchStreamQuality]
    and the delayed constraint update of the "Go Live" button. *)

From Stdlib Require Import ZArith Bool Ascii.
From Stdlib Require Import Floats.SpecFloat.
From stdpp Require Import gmap strings list fin_maps.

Local Open Scope string_scope.
Local Open Scope list_scope.

(** ** JavaScript values that occur in the picker *)

Module JS.

(** A property of a venmic [Node] is a string; reading a missing property
    gives [undefined], and the candidate builder stores such reads back
    into the objects it builds.  Both are kept. *)
Inductive value : Type :=
| Undefined
| Str (s : string).

#[global] Instance value_eq_dec : EqDecision value.
Proof. solve_decision. Defined.

(** [a === b] on strings and [undefined]. *)
Definition strict_eq (a b : value) : bool := bool_decide (a = b).

(** [if (v)]: [undefined] and the empty string are falsy. *)
Definition truthy (v : value) : bool :=
  match v with
  | Undefined => false
  | Str s => negb (String.eqb s "")
  end.

(** The string a template literal [`${v}`] interpolates. *)
Definition to_string (v : value) : string :=
  match v with
  | Undefined => "undefined"
  | Str s => s
  end.

(** A plain object with string keys.  Key order is not kept: no function
    of the picker depends on it ([every] is given a pure callback). *)
Abbreviation object := (gmap string value).

(** [o[key]] *)
Definition get (o : object) (key : string) : value :=
  default Undefined (o !! key).

(** [Object.keys(o)] *)
Definition keys (o : object) : list string := (map_to_list o).*1.

(** The outcome of running a statement list: it ends normally or it
    throws. *)
Inductive completion (A : Type) : Type :=
| Normal (a : A)
| Throw (error : string).
Arguments Normal {A} a.
Arguments Throw {A} error.

End JS.

Import JS.

(** ** Data model (lines 36-52 of the source) *)

Inductive SpecialSource : Type :=
| SrcNone            (* "None" *)
| SrcEntireSystem.   (* "Entire System" *)

#[global] Instance SpecialSource_eq_dec : EqDecision SpecialSource.
Proof. solve_decision. Defined.

(** The string a [SpecialSource] is at run time. *)
Definition special_string (s : SpecialSource) : string :=
  match s with
  | SrcNone => "None"
  | SrcEntireSystem => "Entire System"
  end.

Abbreviation Node := (gmap string value).

(** [type AudioSource = SpecialSource | Node] *)
Inductive AudioSource : Type :=
| ASpecial (s : SpecialSource)
| ANode (n : Node).

(** [type AudioSources = SpecialSource | Node[]] *)
Inductive AudioSources : Type :=
| SSpecial (s : SpecialSource)
| SNodes (l : list Node).

#[global] Instance AudioSource_eq_dec : EqDecision AudioSource.
Proof. solve_decision. Defined.

#[global] Instance AudioSources_eq_dec : EqDecision AudioSources.
Proof. solve_decision. Defined.

(** [interface AudioItem].  [name] is declared a string, but
    [mapToAudioItem] can store an [undefined] read in it. *)
Record AudioItem : Type := mkItem {
  name : value;
  item_value : AudioSource
}.

(** ** Matcher and selection (lines 400-406 and 485-514) *)

(** [typeof value === "string"] *)
Definition isSpecialSource (v : AudioSource) : bool :=
  match v with
  | ASpecial _ => true
  | ANode _ => false
  end.

(** [Object.keys(value).every(key => value[key] === other[key])] *)
Definition hasMatchingProps (v other : Node) : bool :=
  forallb (λ key, strict_eq (get v key) (get other key)) (keys v).

(** [isSelected], with the component's [audioSources] prop made a
    parameter; [None] is [undefined]. *)
Definition isSelected (audioSources : option AudioSources) (v : AudioSource) : bool :=
  match audioSources with
  | None => false                                   (* !audioSources *)
  | Some (SSpecial s) =>                            (* audioSources === value *)
      match v with
      | ASpecial s' => bool_decide (s = s')
      | ANode _ => false
      end
  | Some (SNodes l) =>
      match v with
      | ASpecial _ => false                         (* an array is no string *)
      | ANode n => existsb (λ source, hasMatchingProps source n) l
      end
  end.

(** [update]: the result is the argument handed to [setAudioSources], which
    becomes the next [audioSources]. *)
Definition update (audioSources : option AudioSources) (v : AudioSource) : AudioSources :=
  match v with
  | ASpecial s => SSpecial s
  | ANode n =>
      match audioSources with
      | Some (SSpecial _) => SNodes [n]
      | _ =>
          if isSelected audioSources v then
            (* audioSources?.filter(x => !hasMatchingProps(x, value)) ?? "None" *)
            match audioSources with
            | Some (SNodes l) =>
                SNodes (List.filter (λ x, negb (hasMatchingProps x n)) l)
            | _ => SSpecial SrcNone
            end
          else
            (* [...(audioSources || []), value] *)
            SNodes (match audioSources with
                    | Some (SNodes l) => l
                    | _ => []
                    end ++ [n])
      end
  end.

(** Toggling a candidate in the dialog: the state after one click. *)
Definition toggle (audioSources : option AudioSources) (v : AudioSource)
  : option AudioSources :=
  Some (update audioSources v).

(** ** Candidate builder (lines 408-462) *)

Definition NAME : string := "application.name".
Definition BINARY : string := "application.process.binary".
Definition PID : string := "application.process.id".
Definition MEDIA_NAME : string := "media.name".
Definition MEDIA_CLASS : string := "media.class".

(** Inside the [Node] branch every item pushed to [rtn] carries an object
    literal, which is why the source may cast [first.value as Node].  The
    embedding keeps [rtn] as pairs of a name and that object, and wraps them
    into [AudioItem]s where the function returns. *)
Definition as_items (rtn : list (value * Node)) : list AudioItem :=
  (λ p, mkItem p.1 (ANode p.2)) <$> rtn.

Definition mapToAudioItem (node : AudioSource) (granularSelect : bool)
  : completion (list AudioItem) :=
  match node with
  | ASpecial s => Normal [mkItem (Str (special_string s)) (ASpecial s)]
  | ANode node =>
      let rtn : list (value * Node) := [] in
      let name := get node NAME in
      let rtn := if truthy name then rtn ++ [(name, {[ NAME := name ]})] else rtn in
      if negb granularSelect then Normal (as_items rtn) else
      let binary := get node BINARY in
      let rtn :=
        if negb (truthy name) then rtn ++ [(binary, {[ BINARY := binary ]})]
        else rtn in
      let pid := get node PID in
      match rtn !! 0%nat with
      | None => Throw "TypeError: first is undefined"
      | Some first =>
          let firstValues := first.2 in
          let rtn :=
            rtn ++ [(Str (to_string first.1 +:+ " (" +:+ to_string pid +:+ ")"),
                     <[ PID := pid ]> firstValues)] in
          let mediaName := get node MEDIA_NAME in
          let rtn :=
            if truthy mediaName then
              rtn ++ [(Str (to_string first.1 +:+ " [" +:+ to_string mediaName +:+ "]"),
                       <[ MEDIA_NAME := mediaName ]> firstValues)]
            else rtn in
          let mediaClass := get node MEDIA_CLASS in
          if negb (truthy mediaClass) then Normal (as_items rtn) else
          Normal (as_items
            (rtn ++ [(Str (to_string first.1 +:+ " [" +:+ to_string mediaClass +:+ "]"),
                      <[ MEDIA_CLASS := mediaClass ]> firstValues)]))
      end
  end.

(** ** Arrays: [findIndex] and [filter] with its three-argument callback *)

Section Arrays.

Context {A : Type}.

Fixpoint findIndex_from (p : A → bool) (i : Z) (l : list A) : Z :=
  match l with
  | [] => (-1)%Z
  | x :: r => if p x then i else findIndex_from p (i + 1)%Z r
  end.

(** [list.findIndex(p)] *)
Definition findIndex (p : A → bool) (l : list A) : Z := findIndex_from p 0%Z l.

Fixpoint filter_from (f : A → Z → list A → bool) (whole : list A)
         (i : Z) (l : list A) : list A :=
  match l with
  | [] => []
  | x :: r =>
      if f x i whole then x :: filter_from f whole (i + 1)%Z r
      else filter_from f whole (i + 1)%Z r
  end.

(** [list.filter(f)], the callback receiving element, index and array. *)
Definition array_filter (f : A → Z → list A → bool) (l : list A) : list A :=
  filter_from f l 0%Z l.

End Arrays.

(** [uniqueName] (lines 516-517) *)
Definition uniqueName (v : AudioItem) (index : Z) (l : list AudioItem) : bool :=
  (findIndex (λ x, strict_eq (name x) (name v)) l =? index)%Z.

(** [targets.map(f)] for an [f] that may throw: the first throw ends it. *)
Fixpoint map_completion {A B} (f : A → completion B) (l : list A)
  : completion (list B) :=
  match l with
  | [] => Normal []
  | x :: r =>
      match f x with
      | Throw e => Throw e
      | Normal y =>
          match map_completion f r with
          | Throw e => Throw e
          | Normal ys => Normal (y :: ys)
          end
      end
  end.

(** [[...specialSources, ...sources.targets]] (lines 479-480) *)
Definition allSources (targets : list Node) : list AudioSource :=
  [ASpecial SrcNone; ASpecial SrcEntireSystem] ++ (ANode <$> targets).

(** The options handed to [Select] (lines 544-547), before they are
    relabelled: [.map(mapToAudioItem).flat().filter(uniqueName)]. *)
Definition select_options (targets : list Node) (granularSelect : bool)
  : completion (list AudioItem) :=
  match map_completion (λ target, mapToAudioItem target granularSelect)
                       (allSources targets) with
  | Throw e => Throw e
  | Normal items => Normal (array_filter uniqueName (concat items))
  end.

(** ** The [STREAM_CLOSE] subscriber (lines 109-117) *)

(** [s.split(sep)] for a separator of one character. *)
Fixpoint split (sep : ascii) (s : string) : list string :=
  match s with
  | EmptyString => [""]
  | String c r =>
      if Ascii.eqb c sep then "" :: split sep r
      else match split sep r with
           | [] => [String c ""]
           | h :: t => String c h :: t
           end
  end.

(** [list.at(-1)] *)
Definition at_last (l : list string) : value :=
  match last l with
  | Some s => Str s
  | None => Undefined
  end.

(** Calls made to the native backend, oldest first. *)
Inductive virtmic_call : Type :=
| VirtmicStop
| VirtmicStartSystem
| VirtmicStart (targets : list Node).

(** [const owner = streamKey.split(":").at(-1)] *)
Definition stream_owner (streamKey : string) : value :=
  at_last (split ":" streamKey).

(** The subscriber (registered on Linux only), with the current user's id
    and the calls made so far passed explicitly. *)
Definition on_STREAM_CLOSE (currentUserId streamKey : string)
           (calls : list virtmic_call) : list virtmic_call :=
  let owner := stream_owner streamKey in
  if negb (strict_eq owner (Str currentUserId)) then calls
  else calls ++ [VirtmicStop].

(** Whether the character occurs in the string. *)
Fixpoint contains (c : ascii) (s : string) : bool :=
  match s with
  | EmptyString => false
  | String c' r => Ascii.eqb c' c || contains c r
  end.

(** ** Numbers *)

Module Num.

(** A JavaScript number is an IEEE 754 binary64 value. *)
Abbreviation number := spec_float.

Definition prec : Z := 53.
Definition emax : Z := 1024.

(** The number an integer literal denotes (rounded to nearest, ties to
    even, when it has more than 53 significant bits). *)
Definition of_Z (z : Z) : number := binary_normalize prec emax z 0 false.

Definition mul (x y : number) : number := SFmul prec emax x y.
Definition div (x y : number) : number := SFdiv prec emax x y.

(** [Math.round(x)]: the integer nearest to [x], ties towards +∞, that is
    [floor (x + 1/2)] taken exactly; zeros, infinities and NaN are
    returned as they are, and a result of zero keeps the sign of [x]. *)
Definition Math_round (x : number) : number :=
  match x with
  | S754_finite s m e =>
      let n := if (0 <=? e)%Z then (cond_Zopp s (Z.pos m) * 2 ^ e)%Z
               else ((2 * cond_Zopp s (Z.pos m) + 2 ^ (- e)) / 2 ^ (1 - e))%Z in
      if (n =? 0)%Z then S754_zero s else of_Z n
  | _ => x
  end.

Definition digit (c : ascii) : option Z :=
  let n := Z.of_N (N_of_ascii c) in
  if ((48 <=? n) && (n <=? 57))%Z then Some (n - 48)%Z else None.

Fixpoint digits (acc : Z) (s : string) : option Z :=
  match s with
  | EmptyString => Some acc
  | String c r =>
      match digit c with
      | Some d => digits (10 * acc + d)%Z r
      | None => None
      end
  end.

(** [Number(s)] on strings of decimal digits, the only ones the picker
    converts (the members of [StreamResolutions] and [StreamFps]); any
    other string is mapped to NaN here, which is what JavaScript does for
    strings that are not numeric literals. *)
Definition Number (s : string) : number :=
  match digits 0 s with
  | Some z => of_Z z
  | None => S754_nan
  end.

End Num.

Import Num.

(** ** Stream settings (lines 28-52) *)

Inductive StreamResolution : Type := R480 | R720 | R1080 | R1440.
Inductive StreamFps : Type := F15 | F30 | F60.

Definition resolution_string (r : StreamResolution) : string :=
  match r with
  | R480 => "480"
  | R720 => "720"
  | R1080 => "1080"
  | R1440 => "1440"
  end.

Definition fps_string (f : StreamFps) : string :=
  match f with
  | F15 => "15"
  | F30 => "30"
  | F60 => "60"
  end.

Record StreamSettings : Type := mkSettings {
  resolution : StreamResolution;
  fps : StreamFps;
  audio : bool;
  audioSources : option AudioSources;
  contentHint : option string
}.

(** The three locals both [patchStreamQuality] (lines 81-83) and the
    "Go Live" handler (lines 633-635) compute from the settings. *)
Definition quality_framerate (s : StreamSettings) : number :=
  Number (fps_string (fps s)).

Definition quality_height (s : StreamSettings) : number :=
  Number (resolution_string (resolution s)).

Definition quality_width (s : StreamSettings) : number :=
  Math_round (mul (quality_height s) (div (of_Z 16) (of_Z 9))).

(** ** [patchStreamQuality] (lines 78-104) *)

(** The host's per-stream options object: its own numeric properties, and
    the [encode] and [capture] sub-objects, each of which may be missing. *)
Record StreamOptions : Type := mkOptions {
  own : gmap string number;
  encode : option (gmap string number);
  capture : option (gmap string number)
}.

(** [Object.assign(target, { framerate, width, height, pixelCount })] *)
Definition assign_quality (framerate width height : number)
           (target : gmap string number) : gmap string number :=
  <[ "pixelCount" := mul height width ]>
    (<[ "height" := height ]>
      (<[ "width" := width ]>
        (<[ "framerate" := framerate ]> target))).

(** [Object.assign(opts, { bitrateMin, bitrateMax, bitrateTarget })] *)
Definition assign_bitrate (target : gmap string number) : gmap string number :=
  <[ "bitrateTarget" := of_Z 600000 ]>
    (<[ "bitrateMax" := of_Z 8000000 ]>
      (<[ "bitrateMin" := of_Z 500000 ]> target)).

(** The object is mutated in place, so the result is the object as the
    call leaves it together with how the call ended. *)
Definition patchStreamQuality (currentSettings : option StreamSettings)
           (opts : StreamOptions) : StreamOptions * completion unit :=
  match currentSettings with
  | None => (opts, Normal ())
  | Some cs =>
      let framerate := quality_framerate cs in
      let height := quality_height cs in
      let width := quality_width cs in
      let opts := mkOptions (assign_bitrate (own opts)) (encode opts) (capture opts) in
      let opts :=
        match encode opts with
        | Some e =>
            mkOptions (own opts) (Some (assign_quality framerate width height e))
                      (capture opts)
        | None => opts
        end in
      match capture opts with
      | None => (opts, Throw "TypeError: Cannot convert undefined or null to object")
      | Some c =>
          (mkOptions (own opts) (encode opts)
                     (Some (assign_quality framerate width height c)),
           Normal ())
      end
  end.

(** ** The delayed constraint update of "Go Live" (lines 652-679) *)

Inductive constraint : Type :=
| CNumber (n : number)
| CRange (min ideal max : number)       (* { min, ideal, max } *)
| CAdvanced (width height : number)     (* [{ width, height }] *)
| CString (s : string).

Abbreviation MediaTrackConstraints := (gmap string constraint).

(** A video track: [getConstraints()], and whether [applyConstraints(c)]
    resolves ([true]) or rejects ([false]), which the browser decides. *)
Record MediaStreamTrack : Type := mkTrack {
  getConstraints : MediaTrackConstraints;
  applyConstraints : MediaTrackConstraints → bool
}.

(** A media engine connection: [streamUserId] and
    [input.stream.getVideoTracks()]. *)
Record Connection : Type := mkConnection {
  streamUserId : value;
  getVideoTracks : list MediaStreamTrack
}.

Inductive log_entry : Type :=
| LogInfo (message : string) (c : MediaTrackConstraints)
| LogError (message : string).

(** The callback handed to [setTimeout].  It is anonymous in the source;
    the specification calls this step applyToTrack.  The callback is an
    [async] function: [Throw] is its promise being rejected, which nothing
    handles. *)
Definition applyToTrack (connections : list Connection) (currentUserId : string)
           (frameRate width height : number) : list log_entry * completion unit :=
  match List.find (λ connection,
                     strict_eq (streamUserId connection) (Str currentUserId))
                  connections with
  | None => ([], Normal ())
  | Some conn =>
      match getVideoTracks conn !! 0%nat with
      | None =>
          ([], Throw "TypeError: Cannot read properties of undefined (reading 'getConstraints')")
      | Some track =>
          let constraints :=
            <[ "resizeMode" := CString "none" ]>
              (<[ "advanced" := CAdvanced width height ]>
                (<[ "height" := CRange (of_Z 480) height height ]>
                  (<[ "width" := CRange (of_Z 640) width width ]>
                    (<[ "frameRate" := CNumber frameRate ]>
                      (getConstraints track))))) in
          if applyConstraints track constraints then
            ([LogInfo "Applied constraints successfully. New constraints:" constraints],
             Normal ())
          else ([LogError "Failed to apply constraints."], Normal ())
      end
  end.

(** The timer callback as "Go Live" sets it up from the dialog's settings. *)
Definition go_live_timeout (settings : StreamSettings)
           (connections : list Connection) (currentUserId : string)
  : list log_entry * completion unit :=
  applyToTrack connections currentUserId
               (quality_framerate settings) (quality_width settings)
               (quality_height settings).

(** ** What "Go Live" asks of the backend (the [submit] prop, lines 129-138) *)

Definition submit (v : StreamSettings) (calls : list virtmic_call)
  : list virtmic_call :=
  match audioSources v with
  | None => calls
  | Some (SSpecial SrcNone) => calls
  | Some (SSpecial SrcEntireSystem) => calls ++ [VirtmicStartSystem]
  | Some (SNodes targets) => calls ++ [VirtmicStart targets]
  end.

(** ** Definitions used to state the properties *)

(** The base item of the granular list: built from the name when there is
    one, from the binary otherwise. *)
Definition base_item (node : Node) : value * Node :=
  if truthy (get node NAME) then (get node NAME, {[ NAME := get node NAME ]})
  else (get node BINARY, {[ BINARY := get node BINARY ]}).

(** The node of the specification's example, and the same node without a
    process id. *)
Definition firefox_42 : Node := <[ PID := Str "42" ]> {[ NAME := Str "Firefox" ]}.
Definition firefox_no_pid : Node := {[ NAME := Str "Firefox" ]}.

(** Two nodes of the same application with different process ids. *)
Definition chrome_1 : Node := <[ PID := Str "100" ]> {[ NAME := Str "Chrome" ]}.
Definition chrome_2 : Node := <[ PID := Str "200" ]> {[ NAME := Str "Chrome" ]}.

(** [x] is the first item of [l] that carries its label. *)
Definition first_with_its_name (l : list AudioItem) (x : AudioItem) : Prop :=
  ∃ k, l !! k = Some x
       ∧ ∀ j y, (j < k)%nat → l !! j = Some y → name y ≠ name x.

(** The integer nearest to [a / b] for positive [b], ties upwards. *)
Definition round_div (a b : Z) : Z := ((2 * a + b) / (2 * b))%Z.

(** The integer a resolution or frame rate literal spells. *)
Definition resolution_Z (r : StreamResolution) : Z :=
  match r with
  | R480 => 480
  | R720 => 720
  | R1080 => 1080
  | R1440 => 1440
  end.

Definition fps_Z (f : StreamFps) : Z :=
  match f with
  | F15 => 15
  | F30 => 30
  | F60 => 60
  end.

(** ** The options given to [Select] (lines 544-552) *)

(** [{ label: name, value: value, default: name === "None" }] *)
Record SelectOption : Type := mkOption {
  option_label : value;
  option_value : AudioSource;
  option_default : bool
}.

Definition picker_options (targets : list Node) (granularSelect : bool)
  : completion (list SelectOption) :=
  match select_options targets granularSelect with
  | Throw e => Throw e
  | Normal items =>
      Normal ((λ item, mkOption (name item) (item_value item)
                                (strict_eq (name item) (Str "None")))
                <$> items)
  end.

(** ** The "Go Live" button (lines 630-685) *)

(** [conn.videoStreamParameters[i]]: the two fields the handler writes,
    [maxFrameRate] and [maxResolution.{height, width}]. *)
Record Resolution : Type := mkResolution {
  res_height : number;
  res_width : number
}.

Record VideoStreamParameters : Type := mkParameters {
  maxFrameRate : number;
  maxResolution : Resolution
}.

(** A connection of the media engine together with its
    [videoStreamParameters] array. *)
Record EngineConnection : Type := mkEngineConnection {
  connection : Connection;
  videoStreamParameters : list VideoStreamParameters
}.

(** The three assignments to [conn.videoStreamParameters[0]] (lines
    642-644).  The first one throws when the array is empty, before
    anything is written. *)
Definition patch_parameters (frameRate height width : number)
           (conn : EngineConnection) : completion EngineConnection :=
  match videoStreamParameters conn with
  | [] => Throw "TypeError: Cannot set properties of undefined (setting 'maxFrameRate')"
  | _ :: rest =>
      Normal (mkEngineConnection (connection conn)
                (mkParameters frameRate (mkResolution height width) :: rest))
  end.

(** [find] the current user's connection and write to it in place (lines
    637-645): the first connection that satisfies the test is replaced by
    its patched state, the list is unchanged when there is none. *)
Fixpoint patch_connection (currentUserId : string)
         (frameRate height width : number) (connections : list EngineConnection)
  : completion (list EngineConnection) :=
  match connections with
  | [] => Normal []
  | conn :: rest =>
      if strict_eq (streamUserId (connection conn)) (Str currentUserId) then
        match patch_parameters frameRate height width conn with
        | Throw e => Throw e
        | Normal conn' => Normal (conn' :: rest)
        end
      else
        match patch_connection currentUserId frameRate height width rest with
        | Throw e => Throw e
        | Normal rest' => Normal (conn :: rest')
        end
  end.

(** [interface StreamPick extends StreamSettings { id: string }] *)
Record StreamPick : Type := mkPick {
  pick_id : string;
  pick_settings : StreamSettings
}.

(** What one click on "Go Live" leaves behind, before [close()] runs: the
    module's [currentSettings], the connections, the argument [submit] was
    called with (if it was), the values the timer callback captured (if it
    was scheduled) and what was logged. *)
Record GoLive : Type := mkGoLive {
  currentSettings_after : option StreamSettings;
  connections_after : list EngineConnection;
  submitted : option StreamPick;
  timer : option (number * number * number);   (* frameRate, width, height *)
  logged : list log_entry
}.

Definition go_live (settings : StreamSettings) (selected : string)
           (connections : list EngineConnection) (currentUserId : string)
  : GoLive :=
  (* currentSettings = settings; try { ... } *)
  let frameRate := quality_framerate settings in
  let height := quality_height settings in
  let width := quality_width settings in
  match patch_connection currentUserId frameRate height width connections with
  | Throw _ =>
      (* catch (error) { logger.error("Error while submitting stream.", error) } *)
      mkGoLive (Some settings) connections None None
               [LogError "Error while submitting stream."]
  | Normal connections' =>
      mkGoLive (Some settings) connections'
               (Some (mkPick selected settings))
               (Some (frameRate, width, height)) []
  end.

(** Running the timer a click scheduled, on the connections as they are
    when it fires. *)
Definition run_timer (g : GoLive) (connections : list EngineConnection)
           (currentUserId : string) : list log_entry * completion unit :=
  match timer g with
  | None => ([], Normal ())
  | Some (frameRate, width, height) =>
      applyToTrack (connection <$> connections) currentUserId
                   frameRate width height
  end.

(** ** [openScreenSharePicker] (lines 121-155) *)

(** The promise the picker returns.  [resolve] and [reject] act on a
    pending promise only. *)
Inductive promise : Type :=
| Pending
| Resolved (v : StreamPick)
| Rejected (reason : string).

Definition settle (p outcome : promise) : promise :=
  match p with
  | Pending => outcome
  | _ => p
  end.

(** The state of one picker: [didSubmit], the promise, the calls made to
    the backend and, while [submit] is suspended at its [await], the value
    it will resolve the promise with. *)
Record Picker : Type := mkPicker {
  didSubmit : bool;
  picked : promise;
  backend : list virtmic_call;
  awaiting : option StreamPick
}.

Definition openScreenSharePicker : Picker := mkPicker false Pending [] None.

(** [v.audioSources && v.audioSources !== "None"] *)
Definition wants_audio (v : StreamSettings) : bool :=
  match audioSources v with
  | None => false
  | Some (SSpecial SrcNone) => false
  | Some _ => true
  end.

(** The [submit] prop up to its [await]: without audio it runs to its end
    and resolves the promise; with audio it has called the backend and is
    suspended. *)
Definition picker_submit (v : StreamPick) (p : Picker) : Picker :=
  if wants_audio (pick_settings v) then
    mkPicker true (picked p) (submit (pick_settings v) (backend p)) (Some v)
  else
    mkPicker true (settle (picked p) (Resolved v)) (backend p) (awaiting p).

(** The backend's promise settles: [submit] resumes and resolves when it
    was fulfilled, and ends by throwing when it was rejected. *)
Definition picker_started (fulfilled : bool) (p : Picker) : Picker :=
  match awaiting p with
  | None => p
  | Some v =>
      mkPicker (didSubmit p)
               (if fulfilled then settle (picked p) (Resolved v) else picked p)
               (backend p) None
  end.

(** The [close] prop: [props.onClose(); if (!didSubmit) reject("Aborted")] *)
Definition picker_close (p : Picker) : Picker :=
  if didSubmit p then p
  else mkPicker (didSubmit p) (settle (picked p) (Rejected "Aborted"))
                (backend p) (awaiting p).

(** [onCloseRequest]: [closeModal(key); reject("Aborted")] *)
Definition picker_onCloseRequest (p : Picker) : Picker :=
  mkPicker (didSubmit p) (settle (picked p) (Rejected "Aborted"))
           (backend p) (awaiting p).

(** A click on "Go Live" as the picker sees it: [submit] if the handler
    reached it, then [close()]. *)
Definition picker_go_live (g : GoLive) (p : Picker) : Picker :=
  picker_close (match submitted g with
                | Some v => picker_submit v p
                | None => p
                end).

Inductive picker_event : Type :=
| EvSubmit (v : StreamPick)
| EvStarted (fulfilled : bool)
| EvClose
| EvCloseRequest.

Definition picker_step (p : Picker) (e : picker_event) : Picker :=
  match e with
  | EvSubmit v => picker_submit v p
  | EvStarted fulfilled => picker_started fulfilled p
  | EvClose => picker_close p
  | EvCloseRequest => picker_onCloseRequest p
  end.

Definition picker_run (p : Picker) (events : list picker_event) : Picker :=
  fold_left picker_step events p.

(** ** Further definitions used to state the properties *)

(** Every property of the object is a string. *)
Definition string_valued (p : Node) : Prop := ∀ k, p !! k ≠ Some Undefined.

(** A constraint that is a range has its bounds in order. *)
Definition range_ok (c : constraint) : bool :=
  match c with
  | CRange lo ideal hi => SFleb lo ideal && SFleb ideal hi
  | _ => true
  end.

(** The width the picker asks for at each resolution. *)
Definition width_Z (r : StreamResolution) : Z :=
  match r with
  | R480 => 853
  | R720 => 1280
  | R1080 => 1920
  | R1440 => 2560
  end.

(** * Properties *)

(** ** JavaScript values *)

Section JSFacts.

Lemma strict_eq_true a b : strict_eq a b = true ↔ a = b.
Proof. unfold strict_eq. apply bool_decide_eq_true. Qed.

Lemma strict_eq_false a b : strict_eq a b = false ↔ a ≠ b.
Proof. unfold strict_eq. apply bool_decide_eq_false. Qed.

Lemma strict_eq_refl a : strict_eq a a = true.
Proof. by apply strict_eq_true. Qed.

Lemma elem_of_keys (o : object) k : k ∈ keys o ↔ is_Some (o !! k).
Proof.
  unfold keys. rewrite list_elem_of_fmap. split.
  - intros [[k' v] [-> Hin]]. apply elem_of_map_to_list in Hin. by exists v.
  - intros [v Hv]. exists (k, v). split; [done|]. by apply elem_of_map_to_list.
Qed.

End JSFacts.

(** ** The matcher is a one-directional subset check *)

Section Matcher.

Implicit Types p t : Node.

Lemma hasMatchingProps_spec p t :
  hasMatchingProps p t = true ↔ ∀ k, is_Some (p !! k) → get p k = get t k.
Proof.
  unfold hasMatchingProps. rewrite forallb_forall. split.
  - intros H k Hk. apply strict_eq_true, H.
    apply list_elem_of_In. by apply elem_of_keys.
  - intros H k Hk. apply strict_eq_true, H.
    apply elem_of_keys. by apply list_elem_of_In.
Qed.

Lemma hasMatchingProps_refl p : hasMatchingProps p p = true.
Proof. by apply hasMatchingProps_spec. Qed.

Lemma hasMatchingProps_extra p t k v :
  p !! k = None → hasMatchingProps p (<[k:=v]> t) = hasMatchingProps p t.
Proof.
  intros Hk. apply eq_true_iff_eq. rewrite !hasMatchingProps_spec.
  split; intros H k' Hk'.
  - rewrite (H k' Hk'). unfold get. rewrite lookup_insert_ne; [done|].
    intros ->. rewrite Hk in Hk'. by destruct Hk'.
  - rewrite (H k' Hk'). unfold get. rewrite lookup_insert_ne; [done|].
    intros ->. rewrite Hk in Hk'. by destruct Hk'.
Qed.

(** When every property of the pattern is a string (as in a [Node] the
    backend reports), matching is inclusion of finite maps. *)
Lemma hasMatchingProps_subseteq p t :
  (∀ k, p !! k ≠ Some Undefined) →
  hasMatchingProps p t = true ↔ p ⊆ t.
Proof.
  intros Hdef. rewrite hasMatchingProps_spec, map_subseteq_spec. split.
  - intros H k v Hv. specialize (H k (ex_intro _ v Hv)).
    unfold get in H. rewrite Hv in H. simpl in H.
    destruct (t !! k) as [w|] eqn:Ht; simpl in H; [by subst|].
    subst. by destruct (Hdef k).
  - intros H k [v Hv]. unfold get. by rewrite Hv, (H k v Hv).
Qed.

End Matcher.

(** C5.  [hasMatchingProps p t] holds exactly when every key of [p] reads
    the same value in [t] as in [p]; keys that only [t] has never matter;
    for patterns whose properties are all strings this is inclusion [p ⊆ t];
    and the relation is not symmetric. *)
Theorem hasMatchingProps_subset_check :
  (∀ p t : Node,
     hasMatchingProps p t = true ↔ ∀ k, is_Some (p !! k) → get p k = get t k)
  ∧ (∀ (p t : Node) k v,
       p !! k = None → hasMatchingProps p (<[k:=v]> t) = hasMatchingProps p t)
  ∧ (∀ p t : Node,
       (∀ k, p !! k ≠ Some Undefined) → hasMatchingProps p t = true ↔ p ⊆ t)
  ∧ (∃ p t : Node, hasMatchingProps p t = true ∧ hasMatchingProps t p = false).
Proof.
  split; [exact hasMatchingProps_spec|].
  split; [exact hasMatchingProps_extra|].
  split; [exact hasMatchingProps_subseteq|].
  exists {[ NAME := Str "Firefox" ]},
         (<[ PID := Str "42" ]> {[ NAME := Str "Firefox" ]}).
  split; vm_compute; reflexivity.
Qed.

(** ** Selection *)

Section Selection.

Implicit Types (l : list Node) (n : Node) (s : SpecialSource).

Lemma isSelected_nodes l n :
  isSelected (Some (SNodes l)) (ANode n) = true
  ↔ ∃ source, source ∈ l ∧ hasMatchingProps source n = true.
Proof.
  simpl. rewrite existsb_exists. split.
  - intros [x [Hin Hx]]. exists x. by rewrite list_elem_of_In.
  - intros [x [Hin Hx]]. exists x. by rewrite <- list_elem_of_In.
Qed.

(** The removal branch: what is handed to [setAudioSources] is the list
    without the entries that match the candidate. *)
Lemma update_selected l n :
  isSelected (Some (SNodes l)) (ANode n) = true →
  update (Some (SNodes l)) (ANode n)
  = SNodes (List.filter (λ x, negb (hasMatchingProps x n)) l).
Proof. intros H. unfold update. by rewrite H. Qed.

Lemma update_selected_elem l n x :
  x ∈ List.filter (λ x, negb (hasMatchingProps x n)) l
  ↔ x ∈ l ∧ hasMatchingProps x n = false.
Proof.
  rewrite !list_elem_of_In, filter_In, negb_true_iff. reflexivity.
Qed.

Lemma filter_all_matching l n :
  (∀ x, x ∈ l → hasMatchingProps x n = true) →
  List.filter (λ x, negb (hasMatchingProps x n)) l = [].
Proof.
  induction l as [|x l IH]; intros H; [done|]. simpl.
  rewrite (H x) by left. simpl. apply IH. intros y Hy. apply H. by right.
Qed.

Lemma update_unselected l n :
  isSelected (Some (SNodes l)) (ANode n) = false →
  update (Some (SNodes l)) (ANode n) = SNodes (l ++ [n]).
Proof. intros H. unfold update. by rewrite H. Qed.

End Selection.

(** C6.  Picking a special source replaces any selection by that special
    source, and picking a node while a special source is selected replaces
    the selection by the list holding just that node. *)
Theorem update_special_replaces :
  (∀ (sel : option AudioSources) (s : SpecialSource),
     update sel (ASpecial s) = SSpecial s)
  ∧ (∀ (s : SpecialSource) (n : Node),
       update (Some (SSpecial s)) (ANode n) = SNodes [n]).
Proof. split; reflexivity. Qed.

(** C10.  With the empty list stored, nothing is selected, and picking a
    node there, or while nothing was ever stored, gives the list holding
    just that node. *)
Theorem empty_list_selection :
  (∀ v : AudioSource, isSelected (Some (SNodes [])) v = false)
  ∧ (∀ n : Node, update (Some (SNodes [])) (ANode n) = SNodes [n])
  ∧ (∀ n : Node, update None (ANode n) = SNodes [n]).
Proof.
  split; [|split]; try reflexivity.
  intros [s|n]; reflexivity.
Qed.

(** C1.  Picking a selected node removes the entries that match it, but
    the list that remains is stored as it is, also when it is empty: the
    result is never "None".  Picking the same node twice, starting with
    nothing stored, leaves the empty list, which "Go Live" hands to the
    backend's [start]. *)
Theorem update_twice_leaves_empty_list :
  (∀ n : Node,
     update (toggle None (ANode n)) (ANode n) = SNodes [])
  ∧ (∀ (l : list Node) (n : Node),
       isSelected (Some (SNodes l)) (ANode n) = true →
       update (Some (SNodes l)) (ANode n)
       = SNodes (List.filter (λ x, negb (hasMatchingProps x n)) l)
       ∧ update (Some (SNodes l)) (ANode n) ≠ SSpecial SrcNone)
  ∧ (∀ (n : Node) (r : StreamResolution) (f : StreamFps) (a : bool)
       (hint : option string) (calls : list virtmic_call),
       submit (mkSettings r f a (toggle (toggle None (ANode n)) (ANode n)) hint)
              calls
       = calls ++ [VirtmicStart []]).
Proof.
  assert (Htwice : ∀ n : Node,
             update (toggle None (ANode n)) (ANode n) = SNodes []).
  { intros n. unfold toggle.
    change (update None (ANode n)) with (SNodes [n]).
    rewrite update_selected; simpl; rewrite hasMatchingProps_refl; done. }
  split; [exact Htwice|]. split.
  - intros l n H. rewrite update_selected by done. done.
  - intros n r f a hint calls. unfold submit. simpl audioSources.
    unfold toggle at 1. by rewrite Htwice.
Qed.

(** ** Candidate builder *)

Section Builder.

Implicit Types (node : Node).

(** [rtn[0]] is always there when it is read: the builder never throws. *)
Lemma mapToAudioItem_total (source : AudioSource) (granularSelect : bool) :
  ∃ items, mapToAudioItem source granularSelect = Normal items.
Proof.
  destruct source as [s|node]; [by eexists|]. unfold mapToAudioItem.
  destruct (truthy (get node NAME)), granularSelect; simpl;
    try (by eexists);
    destruct (truthy (get node MEDIA_CLASS)); simpl; by eexists.
Qed.

Lemma mapToAudioItem_not_granular node :
  mapToAudioItem (ANode node) false
  = Normal (if truthy (get node NAME)
            then [mkItem (get node NAME) (ANode {[ NAME := get node NAME ]})]
            else []).
Proof. unfold mapToAudioItem. by destruct (truthy (get node NAME)). Qed.

(** With granular selection the second item is the process id item,
    whatever [node[PID]] reads. *)
Lemma mapToAudioItem_granular_pid node :
  ∃ rest,
    mapToAudioItem (ANode node) true
    = Normal (mkItem (base_item node).1 (ANode (base_item node).2)
              :: mkItem (Str (to_string (base_item node).1 +:+ " ("
                              +:+ to_string (get node PID) +:+ ")"))
                        (ANode (<[ PID := get node PID ]> (base_item node).2))
              :: rest).
Proof.
  unfold mapToAudioItem, base_item.
  destruct (truthy (get node NAME)); simpl;
    destruct (truthy (get node MEDIA_NAME)); simpl;
    destruct (truthy (get node MEDIA_CLASS)); simpl; by eexists.
Qed.

End Builder.


Lemma mapToAudioItem_firefox_42 :
  mapToAudioItem (ANode firefox_42) true
  = Normal [ mkItem (Str "Firefox") (ANode {[ NAME := Str "Firefox" ]});
             mkItem (Str "Firefox (42)")
                    (ANode (<[ PID := Str "42" ]> {[ NAME := Str "Firefox" ]})) ].
Proof. vm_compute. reflexivity. Qed.

(** C2.  The process id item is pushed without a test of the process id
    (unlike the media name and media class items): a node that has a name
    and no process id still yields a second candidate, labelled
    "Firefox (undefined)", whose pattern has the process id key bound to
    [undefined]. *)
Theorem mapToAudioItem_pid_item_unguarded :
  firefox_no_pid !! PID = None
  ∧ mapToAudioItem (ANode firefox_no_pid) true
    = Normal [ mkItem (Str "Firefox") (ANode {[ NAME := Str "Firefox" ]});
               mkItem (Str "Firefox (undefined)")
                      (ANode (<[ PID := Undefined ]> {[ NAME := Str "Firefox" ]})) ].
Proof. split; vm_compute; reflexivity. Qed.

(** ** Arrays *)

Section ArrayFacts.

Context {A : Type}.
Implicit Types (p : A → bool) (l whole : list A) (i : Z) (k j : nat).

Lemma findIndex_from_bounds p i l k x :
  l !! k = Some x → p x = true →
  (i ≤ findIndex_from p i l ≤ i + Z.of_nat k)%Z.
Proof.
  revert i k. induction l as [|a l IH]; intros i k Hk Hp; [done|].
  simpl. destruct (p a) eqn:Ha; [lia|].
  destruct k as [|k]; simpl in Hk.
  - congruence.
  - specialize (IH (i + 1)%Z k Hk Hp). lia.
Qed.

Lemma findIndex_from_first p i l k x :
  l !! k = Some x → p x = true →
  (∀ j y, (j < k)%nat → l !! j = Some y → p y = false) →
  findIndex_from p i l = (i + Z.of_nat k)%Z.
Proof.
  revert i k. induction l as [|a l IH]; intros i k Hk Hp Hbefore; [done|].
  simpl. destruct k as [|k]; simpl in Hk.
  - injection Hk as ->. rewrite Hp. lia.
  - rewrite (Hbefore 0%nat a) by (done || lia).
    rewrite (IH (i + 1)%Z k Hk Hp); [lia|].
    intros j y Hj Hy. apply (Hbefore (S j) y); [lia|done].
Qed.

Lemma findIndex_from_found p i l x :
  x ∈ l → p x = true →
  ∃ k y, findIndex_from p i l = (i + Z.of_nat k)%Z ∧ l !! k = Some y
         ∧ p y = true
         ∧ ∀ j z, (j < k)%nat → l !! j = Some z → p z = false.
Proof.
  revert i. induction l as [|a l IH]; intros i Hin Hp; [by inversion Hin|].
  simpl. destruct (p a) eqn:Ha.
  - exists 0%nat, a. repeat split; [lia|done|]. intros j z Hj. lia.
  - assert (Hl : x ∈ l).
    { apply elem_of_cons in Hin as [->|Hin]; [congruence|done]. }
    destruct (IH (i + 1)%Z Hl Hp) as (k & y & Heq & Hk & Hy & Hbefore).
    exists (S k), y. repeat split; [lia|done|done|].
    intros [|j] z Hj Hz; simpl in Hz; [congruence|].
    apply (Hbefore j z); [lia|done].
Qed.

Lemma elem_of_filter_from (f : A → Z → list A → bool) whole i l x :
  x ∈ filter_from f whole i l
  ↔ ∃ k, l !! k = Some x ∧ f x (i + Z.of_nat k)%Z whole = true.
Proof.
  revert i. induction l as [|a l IH]; intros i; simpl.
  - split; [by intros H; inversion H|by intros (k & Hk & _)].
  - assert (Hrest : x ∈ filter_from f whole (i + 1) l
                    ↔ ∃ k, (a :: l) !! S k = Some x
                           ∧ f x (i + Z.of_nat (S k))%Z whole = true).
    { rewrite IH. split; intros (k & Hk & Hf); exists k; split; try done;
        [replace (i + Z.of_nat (S k))%Z with (i + 1 + Z.of_nat k)%Z by lia
        |replace (i + 1 + Z.of_nat k)%Z with (i + Z.of_nat (S k))%Z by lia];
        done. }
    destruct (f a i whole) eqn:Ha.
    + rewrite elem_of_cons, Hrest. split.
      * intros [->|(k & Hk)]; [|by exists (S k)].
        exists 0%nat. split; [done|]. by rewrite Z.add_0_r.
      * intros ([|k] & Hk & Hf); [left; simpl in Hk; congruence|].
        right. by exists k.
    + rewrite Hrest. split.
      * intros (k & Hk). by exists (S k).
      * intros ([|k] & Hk & Hf); [|by exists k].
        simpl in Hk. injection Hk as <-. rewrite Z.add_0_r in Hf. congruence.
Qed.

Lemma filter_from_sublist (f : A → Z → list A → bool) whole i l :
  filter_from f whole i l `sublist_of` l.
Proof.
  revert i. induction l as [|a l IH]; intros i; simpl; [done|].
  destruct (f a i whole); [by apply sublist_skip|by apply sublist_cons].
Qed.

End ArrayFacts.

(** ** The label filter *)

Section UniqueName.

Implicit Types (l : list AudioItem) (x y : AudioItem) (k j : nat).

Lemma uniqueName_first l k x :
  l !! k = Some x →
  uniqueName x (Z.of_nat k) l = true
  ↔ ∀ j y, (j < k)%nat → l !! j = Some y → name y ≠ name x.
Proof.
  intros Hk. unfold uniqueName, findIndex. rewrite Z.eqb_eq. split.
  - intros Hidx j y Hj Hy Hname.
    pose proof (findIndex_from_bounds
                  (λ z, strict_eq (name z) (name x)) 0 l j y Hy) as Hb.
    simpl in Hb. rewrite Hname, strict_eq_refl in Hb. specialize (Hb eq_refl). lia.
  - intros Hbefore.
    rewrite (findIndex_from_first _ 0 l k x Hk (strict_eq_refl _)); [lia|].
    intros j y Hj Hy. apply strict_eq_false. by apply (Hbefore j).
Qed.

Lemma elem_of_array_filter_uniqueName l x :
  x ∈ array_filter uniqueName l ↔ first_with_its_name l x.
Proof.
  unfold array_filter, first_with_its_name. rewrite elem_of_filter_from.
  split; intros (k & Hk & H); exists k; (split; [done|]).
  - by apply (uniqueName_first l k x Hk).
  - by apply (uniqueName_first l k x Hk).
Qed.

Lemma NoDup_filter_from_uniqueName whole l k :
  drop k whole = l →
  NoDup (name <$> filter_from uniqueName whole (Z.of_nat k) l).
Proof.
  revert k. induction l as [|x l IH]; intros k Hdrop; simpl; [constructor|].
  assert (Hx : whole !! k = Some x).
  { rewrite <- (Nat.add_0_r k), <- lookup_drop, Hdrop. done. }
  assert (Hrest : drop (S k) whole = l).
  { rewrite (drop_S whole x k Hx) in Hdrop. congruence. }
  specialize (IH (S k) Hrest).
  replace (Z.of_nat (S k)) with (Z.of_nat k + 1)%Z in IH by lia.
  destruct (uniqueName x (Z.of_nat k) whole) eqn:Hu; [|done].
  rewrite fmap_cons. constructor; [|done].
  intros Hin. apply list_elem_of_fmap in Hin as (y & Hname & Hy).
  apply elem_of_filter_from in Hy as (j & Hj & Huy).
  unfold uniqueName, findIndex in Huy. apply Z.eqb_eq in Huy.
  pose proof (findIndex_from_bounds
                (λ z, strict_eq (name z) (name y)) 0 whole k x Hx) as Hb.
  simpl in Hb. rewrite Hname, strict_eq_refl in Hb. specialize (Hb eq_refl). lia.
Qed.

Lemma NoDup_array_filter_uniqueName l :
  NoDup (name <$> array_filter uniqueName l).
Proof. by apply (NoDup_filter_from_uniqueName l l 0). Qed.

Lemma array_filter_uniqueName_covers l x :
  x ∈ l → ∃ y, y ∈ array_filter uniqueName l ∧ name y = name x.
Proof.
  intros Hin.
  destruct (findIndex_from_found (λ z, strict_eq (name z) (name x)) 0 l x Hin
              (strict_eq_refl _)) as (k & y & _ & Hk & Hy & Hbefore).
  apply strict_eq_true in Hy. exists y. split; [|done].
  apply elem_of_array_filter_uniqueName. exists k. split; [done|].
  intros j z Hj Hz. rewrite Hy. apply strict_eq_false. by apply (Hbefore j).
Qed.

Lemma select_options_total targets granularSelect :
  ∃ items, select_options targets granularSelect
           = Normal (array_filter uniqueName items).
Proof.
  unfold select_options.
  assert (H : ∀ sources : list AudioSource,
             ∃ ls, map_completion (λ t, mapToAudioItem t granularSelect) sources
                   = Normal ls).
  { induction sources as [|s sources [ls IH]]; [by eexists|]. simpl.
    destruct (mapToAudioItem_total s granularSelect) as [items ->].
    rewrite IH. by eexists. }
  destruct (H (allSources targets)) as [ls ->]. by eexists.
Qed.

End UniqueName.

(** C7.  After [filter(uniqueName)] no label occurs twice; an item is kept
    exactly when it is the first item of the list with its label, so every
    label of the list survives, carried by its first item, and a later item
    with that label is dropped whatever its pattern is; the order of the
    list is kept.  The options of the picker are such a filtered list, and
    two Chrome nodes that differ in their process id give one "Chrome"
    option, the one built from the first node. *)
Theorem uniqueName_keeps_first_of_each_label :
  (∀ l : list AudioItem,
     NoDup (name <$> array_filter uniqueName l)
     ∧ (∀ x, x ∈ array_filter uniqueName l ↔ first_with_its_name l x)
     ∧ (∀ x, x ∈ l → ∃ y, y ∈ array_filter uniqueName l ∧ name y = name x)
     ∧ array_filter uniqueName l `sublist_of` l)
  ∧ (∀ (targets : list Node) (granularSelect : bool),
       ∃ options, select_options targets granularSelect = Normal options
                  ∧ NoDup (name <$> options))
  ∧ array_filter uniqueName
      [ mkItem (Str "Chrome") (ANode chrome_1);
        mkItem (Str "Chrome") (ANode chrome_2) ]
    = [ mkItem (Str "Chrome") (ANode chrome_1) ]
  ∧ select_options [chrome_1; chrome_2] false
    = Normal [ mkItem (Str "None") (ASpecial SrcNone);
               mkItem (Str "Entire System") (ASpecial SrcEntireSystem);
               mkItem (Str "Chrome") (ANode {[ NAME := Str "Chrome" ]}) ].
Proof.
  split; [|split; [|split]].
  - intros l. split; [apply NoDup_array_filter_uniqueName|].
    split; [apply elem_of_array_filter_uniqueName|].
    split; [apply array_filter_uniqueName_covers|].
    apply filter_from_sublist.
  - intros targets granularSelect.
    destruct (select_options_total targets granularSelect) as [items ->].
    eexists. split; [done|]. apply NoDup_array_filter_uniqueName.
  - vm_compute. reflexivity.
  - vm_compute. reflexivity.
Qed.

(** ** The [STREAM_CLOSE] subscriber *)

Section StreamClose.

Implicit Types (sep : ascii) (s pre rest key uid owner : string).

Lemma split_not_nil sep s : split sep s ≠ [].
Proof.
  destruct s as [|c r]; simpl; [done|].
  destruct (Ascii.eqb c sep); [done|]. by destruct (split sep r).
Qed.

Lemma split_without_sep sep s : contains sep s = false → split sep s = [s].
Proof.
  induction s as [|c r IH]; simpl; [done|].
  intros H. apply orb_false_iff in H as [Hc Hr].
  rewrite Hc. by rewrite (IH Hr).
Qed.

(** Splitting distributes over a separator. *)
Lemma split_app sep pre rest :
  split sep (pre +:+ String sep rest) = split sep pre ++ split sep rest.
Proof.
  induction pre as [|c p IH]; simpl.
  - by rewrite Ascii.eqb_refl.
  - destruct (Ascii.eqb c sep); [by rewrite IH|].
    rewrite IH. pose proof (split_not_nil sep p) as Hp.
    by destruct (split sep p).
Qed.

Lemma stream_owner_embedded pre owner :
  contains ":" owner = false →
  stream_owner (pre +:+ ":" +:+ owner) = Str owner.
Proof.
  intros Hfree. unfold stream_owner, at_last.
  change (pre +:+ ":" +:+ owner) with (pre +:+ String ":" owner).
  by rewrite split_app, (split_without_sep _ _ Hfree), last_snoc.
Qed.

Lemma stream_owner_whole key :
  contains ":" key = false → stream_owner key = Str key.
Proof.
  intros Hfree. unfold stream_owner. by rewrite (split_without_sep _ _ Hfree).
Qed.

Lemma on_STREAM_CLOSE_owner uid key calls :
  stream_owner key = Str uid →
  on_STREAM_CLOSE uid key calls = calls ++ [VirtmicStop].
Proof. intros H. unfold on_STREAM_CLOSE. by rewrite H, strict_eq_refl. Qed.

Lemma on_STREAM_CLOSE_other uid key calls :
  stream_owner key ≠ Str uid → on_STREAM_CLOSE uid key calls = calls.
Proof.
  intros H. unfold on_STREAM_CLOSE.
  by rewrite (proj2 (strict_eq_false _ _) H).
Qed.

End StreamClose.

(** C8.  For a stream key that ends in [":" ++ owner], the subscriber calls
    the backend's [stop], once, exactly when [owner] is the current user's
    id; for any other owner it makes no call. *)
Theorem on_STREAM_CLOSE_stops_iff_owner
        (uid pre owner : string) (calls : list virtmic_call) :
  contains ":" owner = false →
  (on_STREAM_CLOSE uid (pre +:+ ":" +:+ owner) calls = calls ++ [VirtmicStop]
   ↔ owner = uid)
  ∧ (owner ≠ uid → on_STREAM_CLOSE uid (pre +:+ ":" +:+ owner) calls = calls).
Proof.
  intros Hfree. pose proof (stream_owner_embedded pre owner Hfree) as Howner.
  assert (Hother : owner ≠ uid →
                   on_STREAM_CLOSE uid (pre +:+ ":" +:+ owner) calls = calls).
  { intros Hne. apply on_STREAM_CLOSE_other. rewrite Howner. congruence. }
  split; [|done]. split.
  - intros Hstop. destruct (decide (owner = uid)) as [|Hne]; [done|].
    rewrite (Hother Hne) in Hstop.
    apply (f_equal length) in Hstop. rewrite length_app in Hstop.
    simpl in Hstop. lia.
  - intros ->. by apply on_STREAM_CLOSE_owner.
Qed.

Lemma on_STREAM_CLOSE_stops_iff_owner_witness :
  contains ":" "42" = false
  ∧ on_STREAM_CLOSE "42" ("guild:1:2" +:+ ":" +:+ "42") [] = [VirtmicStop]
  ∧ on_STREAM_CLOSE "7" ("guild:1:2" +:+ ":" +:+ "42") [] = [].
Proof.
  split; [reflexivity|].
  destruct (on_STREAM_CLOSE_stops_iff_owner "42" "guild:1:2" "42" [] eq_refl)
    as [Hown _].
  destruct (on_STREAM_CLOSE_stops_iff_owner "7" "guild:1:2" "42" [] eq_refl)
    as [_ Hother].
  split; [by apply Hown|]. apply Hother. discriminate.
Defined.

(** ** Stream quality *)

Section Quality.

Implicit Types (cs : StreamSettings) (opts : StreamOptions)
         (target : gmap string number) (k : string).

Lemma quality_framerate_Z cs : quality_framerate cs = of_Z (fps_Z (fps cs)).
Proof. unfold quality_framerate. by destruct (fps cs). Qed.

Lemma quality_height_Z cs : quality_height cs = of_Z (resolution_Z (resolution cs)).
Proof. unfold quality_height. by destruct (resolution cs). Qed.

(** The binary64 computation [Math.round(height * (16 / 9))] gives the
    integer nearest to [16 * height / 9] for each of the four heights. *)
Lemma quality_width_Z cs :
  quality_width cs = of_Z (round_div (16 * resolution_Z (resolution cs)) 9).
Proof.
  unfold quality_width, quality_height.
  destruct (resolution cs); vm_compute; reflexivity.
Qed.

Lemma quality_pixelCount_Z cs :
  mul (quality_height cs) (quality_width cs)
  = of_Z (resolution_Z (resolution cs)
          * round_div (16 * resolution_Z (resolution cs)) 9).
Proof.
  rewrite quality_width_Z, quality_height_Z.
  destruct (resolution cs); vm_compute; reflexivity.
Qed.

Lemma assign_bitrate_lookup target :
  assign_bitrate target !! "bitrateMin" = Some (of_Z 500000)
  ∧ assign_bitrate target !! "bitrateMax" = Some (of_Z 8000000)
  ∧ assign_bitrate target !! "bitrateTarget" = Some (of_Z 600000).
Proof. unfold assign_bitrate. repeat split; by simplify_map_eq. Qed.

Lemma assign_bitrate_other target k :
  k ≠ "bitrateMin" → k ≠ "bitrateMax" → k ≠ "bitrateTarget" →
  assign_bitrate target !! k = target !! k.
Proof. intros. unfold assign_bitrate. by simplify_map_eq. Qed.

Lemma assign_quality_lookup (framerate width height : number) target :
  assign_quality framerate width height target !! "framerate" = Some framerate
  ∧ assign_quality framerate width height target !! "width" = Some width
  ∧ assign_quality framerate width height target !! "height" = Some height
  ∧ assign_quality framerate width height target !! "pixelCount"
    = Some (mul height width).
Proof. unfold assign_quality. repeat split; by simplify_map_eq. Qed.

Lemma assign_quality_other (framerate width height : number) target k :
  k ≠ "framerate" → k ≠ "width" → k ≠ "height" → k ≠ "pixelCount" →
  assign_quality framerate width height target !! k = target !! k.
Proof. intros. unfold assign_quality. by simplify_map_eq. Qed.

Lemma patchStreamQuality_own cs opts :
  own (patchStreamQuality (Some cs) opts).1 = assign_bitrate (own opts).
Proof.
  unfold patchStreamQuality. simpl.
  by destruct (encode opts), (capture opts).
Qed.

Lemma patchStreamQuality_encode cs opts :
  encode (patchStreamQuality (Some cs) opts).1
  = assign_quality (quality_framerate cs) (quality_width cs) (quality_height cs)
      <$> encode opts.
Proof.
  unfold patchStreamQuality. simpl.
  by destruct (encode opts), (capture opts).
Qed.

Lemma patchStreamQuality_capture cs opts :
  capture (patchStreamQuality (Some cs) opts).1
  = assign_quality (quality_framerate cs) (quality_width cs) (quality_height cs)
      <$> capture opts.
Proof.
  unfold patchStreamQuality. simpl.
  by destruct (encode opts), (capture opts).
Qed.

(** The call throws exactly when there is no [capture] sub-object. *)
Lemma patchStreamQuality_completion cs opts :
  (patchStreamQuality (Some cs) opts).2 = Normal () ↔ is_Some (capture opts).
Proof.
  unfold patchStreamQuality. simpl.
  destruct (encode opts), (capture opts); simpl; split; try done;
    by intros [? ?].
Qed.

End Quality.

(** C9.  Without current settings the options object is left as it is.
    With current settings the three bitrate fields are overwritten whatever
    else the object holds and no other own field changes; the [encode]
    sub-object gets [framerate], [width], [height] and [pixelCount] when it
    is there and stays missing when it is not. *)
Theorem patchStreamQuality_options :
  (∀ opts : StreamOptions, patchStreamQuality None opts = (opts, Normal ()))
  ∧ (∀ (cs : StreamSettings) (opts : StreamOptions),
       let opts' := (patchStreamQuality (Some cs) opts).1 in
       own opts' !! "bitrateMin" = Some (of_Z 500000)
       ∧ own opts' !! "bitrateMax" = Some (of_Z 8000000)
       ∧ own opts' !! "bitrateTarget" = Some (of_Z 600000)
       ∧ (∀ k, k ≠ "bitrateMin" → k ≠ "bitrateMax" → k ≠ "bitrateTarget" →
               own opts' !! k = own opts !! k)
       ∧ (encode opts = None → encode opts' = None)
       ∧ (∀ e, encode opts = Some e →
               ∃ e', encode opts' = Some e'
                     ∧ e' !! "framerate" = Some (quality_framerate cs)
                     ∧ e' !! "width" = Some (quality_width cs)
                     ∧ e' !! "height" = Some (quality_height cs)
                     ∧ e' !! "pixelCount"
                       = Some (mul (quality_height cs) (quality_width cs))
                     ∧ ∀ k, k ≠ "framerate" → k ≠ "width" → k ≠ "height" →
                            k ≠ "pixelCount" → e' !! k = e !! k)).
Proof.
  split; [done|]. intros cs opts opts'. subst opts'.
  rewrite patchStreamQuality_own, patchStreamQuality_encode.
  destruct (assign_bitrate_lookup (own opts)) as (Hmin & Hmax & Htarget).
  repeat split; try done.
  - intros k. apply assign_bitrate_other.
  - by intros ->.
  - intros e ->. eexists. split; [done|].
    destruct (assign_quality_lookup (quality_framerate cs) (quality_width cs)
                (quality_height cs) e) as (Hf & Hw & Hh & Hp).
    repeat split; try done. intros k. apply assign_quality_other.
Qed.

(** C4.  For settings with resolution "1080" and fps "60" the height is
    1080, the width is 1920, the frame rate is 60 and the pixel count is
    their product; these are the values [patchStreamQuality] writes into
    [capture]; the width is the integer nearest to [16 * height / 9]; and the
    bitrate bounds written are 500000, 8000000 and 600000 for every
    resolution and frame rate. *)
Theorem quality_1080p60 (cs : StreamSettings) :
  resolution cs = R1080 →
  fps cs = F60 →
  quality_height cs = of_Z 1080
  ∧ quality_width cs = of_Z 1920
  ∧ quality_width cs = of_Z (round_div (16 * 1080) 9)
  ∧ quality_framerate cs = of_Z 60
  ∧ mul (quality_height cs) (quality_width cs) = of_Z (1080 * 1920)
  ∧ (∀ (opts : StreamOptions) c,
       capture opts = Some c →
       ∃ c', capture (patchStreamQuality (Some cs) opts).1 = Some c'
             ∧ c' !! "height" = Some (of_Z 1080)
             ∧ c' !! "width" = Some (of_Z 1920)
             ∧ c' !! "framerate" = Some (of_Z 60)
             ∧ c' !! "pixelCount" = Some (of_Z (1080 * 1920)))
  ∧ (∀ (cs' : StreamSettings) (opts : StreamOptions),
       own (patchStreamQuality (Some cs') opts).1 !! "bitrateMin"
       = Some (of_Z 500000)
       ∧ own (patchStreamQuality (Some cs') opts).1 !! "bitrateMax"
         = Some (of_Z 8000000)
       ∧ own (patchStreamQuality (Some cs') opts).1 !! "bitrateTarget"
         = Some (of_Z 600000)).
Proof.
  intros Hres Hfps.
  assert (Hh : quality_height cs = of_Z 1080).
  { by rewrite quality_height_Z, Hres. }
  assert (Hw : quality_width cs = of_Z 1920).
  { by rewrite quality_width_Z, Hres. }
  assert (Hf : quality_framerate cs = of_Z 60).
  { by rewrite quality_framerate_Z, Hfps. }
  assert (Hp : mul (quality_height cs) (quality_width cs) = of_Z (1080 * 1920)).
  { by rewrite quality_pixelCount_Z, Hres. }
  repeat split; try done.
  - intros opts c Hc. rewrite patchStreamQuality_capture, Hc. simpl.
    eexists. split; [done|].
    destruct (assign_quality_lookup (quality_framerate cs) (quality_width cs)
                (quality_height cs) c) as (Hf' & Hw' & Hh' & Hp').
    rewrite Hf', Hw', Hh', Hp', Hp, Hf, Hw, Hh. done.
  - rewrite patchStreamQuality_own. apply assign_bitrate_lookup.
  - rewrite patchStreamQuality_own. apply assign_bitrate_lookup.
  - rewrite patchStreamQuality_own. apply assign_bitrate_lookup.
Qed.

Lemma quality_1080p60_witness :
  resolution (mkSettings R1080 F60 true None (Some "motion")) = R1080
  ∧ fps (mkSettings R1080 F60 true None (Some "motion")) = F60
  ∧ quality_width (mkSettings R1080 F60 true None (Some "motion")) = of_Z 1920.
Proof.
  split; [reflexivity|]. split; [reflexivity|].
  exact (proj1 (proj2 (quality_1080p60
                         (mkSettings R1080 F60 true None (Some "motion"))
                         eq_refl eq_refl))).
Defined.

(** [Math.round] on a few values, among them ties and a negative zero. *)
Lemma Math_round_examples :
  Math_round (div (of_Z 5) (of_Z 2)) = of_Z 3
  ∧ Math_round (div (of_Z (-5)) (of_Z 2)) = of_Z (-2)
  ∧ Math_round (div (of_Z 2560) (of_Z 3)) = of_Z 853
  ∧ Math_round (div (of_Z (-1)) (of_Z 4)) = S754_zero true
  ∧ Math_round (of_Z 1920) = of_Z 1920
  ∧ Math_round S754_nan = S754_nan.
Proof. repeat split; vm_compute; reflexivity. Qed.

(** ** The delayed constraint update *)

Section ApplyToTrack.

Implicit Types (connections others : list Connection) (uid : string)
         (frameRate width height : number).

Lemma applyToTrack_no_connection connections uid frameRate width height :
  (∀ c, c ∈ connections → streamUserId c ≠ Str uid) →
  applyToTrack connections uid frameRate width height = ([], Normal ()).
Proof.
  intros Hnone. unfold applyToTrack.
  destruct (find _ connections) as [conn|] eqn:Hfind; [|done].
  apply find_some in Hfind as [Hin Heq].
  apply strict_eq_true in Heq. apply list_elem_of_In in Hin.
  by destruct (Hnone conn Hin).
Qed.

Lemma applyToTrack_rejected uid track tracks others frameRate width height :
  (∀ c, applyConstraints track c = false) →
  applyToTrack (mkConnection (Str uid) (track :: tracks) :: others) uid
               frameRate width height
  = ([LogError "Failed to apply constraints."], Normal ()).
Proof.
  intros Hrej. unfold applyToTrack. simpl. rewrite strict_eq_refl. simpl.
  by rewrite Hrej.
Qed.

Lemma applyToTrack_applied uid track tracks others frameRate width height :
  (∀ c, applyConstraints track c = true) →
  ∃ c, applyToTrack (mkConnection (Str uid) (track :: tracks) :: others) uid
                    frameRate width height
       = ([LogInfo "Applied constraints successfully. New constraints:" c],
          Normal ())
       ∧ c !! "frameRate" = Some (CNumber frameRate)
       ∧ c !! "width" = Some (CRange (of_Z 640) width width)
       ∧ c !! "height" = Some (CRange (of_Z 480) height height)
       ∧ c !! "advanced" = Some (CAdvanced width height)
       ∧ c !! "resizeMode" = Some (CString "none").
Proof.
  intros Hok. unfold applyToTrack. simpl. rewrite strict_eq_refl. simpl.
  rewrite Hok. eexists. split; [done|]. repeat split; by simplify_map_eq.
Qed.

End ApplyToTrack.

(** C3.  When the current user's connection has a stream without a video
    track, the callback reads [getConstraints] of [undefined] before it
    reaches its [try] block: it throws, logging nothing.  (A missing
    connection does end it quietly, and a rejected [applyConstraints] is
    caught and logged.) *)
Theorem applyToTrack_throws_without_video_track :
  (∀ (uid : string) (others : list Connection) (frameRate width height : number),
     applyToTrack (mkConnection (Str uid) [] :: others) uid frameRate width height
     = ([], Throw "TypeError: Cannot read properties of undefined (reading 'getConstraints')"))
  ∧ (∀ (connections : list Connection) (uid : string)
       (frameRate width height : number),
       (∀ c, c ∈ connections → streamUserId c ≠ Str uid) →
       applyToTrack connections uid frameRate width height = ([], Normal ()))
  ∧ (∀ (uid : string) (track : MediaStreamTrack) (tracks : list MediaStreamTrack)
       (others : list Connection) (frameRate width height : number),
       (∀ c, applyConstraints track c = false) →
       applyToTrack (mkConnection (Str uid) (track :: tracks) :: others) uid
                    frameRate width height
       = ([LogError "Failed to apply constraints."], Normal ())).
Proof.
  split; [|split].
  - intros uid others frameRate width height. unfold applyToTrack. simpl.
    by rewrite strict_eq_refl.
  - apply applyToTrack_no_connection.
  - apply applyToTrack_rejected.
Qed.

(** * Further properties of the picker *)

(** ** The matcher as an order *)

(** X1.  [hasMatchingProps] is reflexive, and the empty pattern matches
    everything.  On patterns whose properties are all strings it is
    transitive and antisymmetric.  A pattern that binds a key to
    [undefined] breaks transitivity. *)
Theorem hasMatchingProps_order :
  (∀ p : Node, hasMatchingProps p p = true)
  ∧ (∀ t : Node, hasMatchingProps ∅ t = true)
  ∧ (∀ p q r : Node,
       string_valued p →
       hasMatchingProps p q = true → hasMatchingProps q r = true →
       hasMatchingProps p r = true)
  ∧ (∀ p q : Node,
       string_valued p → string_valued q →
       hasMatchingProps p q = true → hasMatchingProps q p = true → p = q)
  ∧ (∃ p q r : Node,
       hasMatchingProps p q = true ∧ hasMatchingProps q r = true
       ∧ hasMatchingProps p r = false).
Proof.
  split; [exact hasMatchingProps_refl|].
  split; [intros t; apply hasMatchingProps_spec; intros k [v Hv]; done|].
  split; [|split].
  - intros p q r Hp Hpq Hqr.
    apply (hasMatchingProps_subseteq p q Hp) in Hpq.
    apply hasMatchingProps_spec. intros k [v Hv].
    pose proof (lookup_weaken _ _ _ _ Hv Hpq) as Hq.
    rewrite hasMatchingProps_spec in Hqr.
    rewrite <- (Hqr k (ex_intro _ v Hq)). unfold get. by rewrite Hv, Hq.
  - intros p q Hp Hq Hpq Hqp.
    apply (hasMatchingProps_subseteq p q Hp) in Hpq.
    apply (hasMatchingProps_subseteq q p Hq) in Hqp.
    apply map_eq. intros k. apply option_eq. intros v. split; intros Hv.
    + by apply (lookup_weaken _ _ _ _ Hv Hpq).
    + by apply (lookup_weaken _ _ _ _ Hv Hqp).
  - exists {[ PID := Undefined ]}, ∅, {[ PID := Str "42" ]}.
    repeat split; vm_compute; reflexivity.
Qed.

(** ** What the builder returns *)

Section BuilderFacts.

Implicit Types (node p : Node) (item : AudioItem).

(** An object all of whose properties are reads of [node] matches [node]. *)
Lemma hasMatchingProps_reads p node :
  (∀ k v, p !! k = Some v → v = get node k) → hasMatchingProps p node = true.
Proof.
  intros H. apply hasMatchingProps_spec. intros k [v Hv].
  unfold get at 1. rewrite Hv. simpl. by apply H.
Qed.

Lemma singleton_reads node key :
  ∀ k v, ({[ key := get node key ]} : Node) !! k = Some v → v = get node k.
Proof. intros k v H. apply lookup_singleton_Some in H as [<- <-]. done. Qed.

Lemma insert_reads node key p :
  (∀ k v, p !! k = Some v → v = get node k) →
  ∀ k v, <[ key := get node key ]> p !! k = Some v → v = get node k.
Proof.
  intros Hp k v H. apply lookup_insert_Some in H as [[<- <-]|[_ H]]; [done|].
  by apply Hp.
Qed.

Lemma base_item_reads node :
  ∀ k v, (base_item node).2 !! k = Some v → v = get node k.
Proof.
  unfold base_item. destruct (truthy (get node NAME)); apply singleton_reads.
Qed.

(** The list built for a node with granular selection, spelled out. *)
Lemma mapToAudioItem_granular node :
  mapToAudioItem (ANode node) true
  = Normal (as_items
      ([base_item node;
        (Str (to_string (base_item node).1 +:+ " (" +:+ to_string (get node PID) +:+ ")"),
         <[ PID := get node PID ]> (base_item node).2)]
       ++ (if truthy (get node MEDIA_NAME) then
             [(Str (to_string (base_item node).1 +:+ " ["
                    +:+ to_string (get node MEDIA_NAME) +:+ "]"),
               <[ MEDIA_NAME := get node MEDIA_NAME ]> (base_item node).2)]
           else [])
       ++ (if truthy (get node MEDIA_CLASS) then
             [(Str (to_string (base_item node).1 +:+ " ["
                    +:+ to_string (get node MEDIA_CLASS) +:+ "]"),
               <[ MEDIA_CLASS := get node MEDIA_CLASS ]> (base_item node).2)]
           else []))).
Proof.
  unfold mapToAudioItem, base_item.
  destruct (truthy (get node NAME)); simpl;
    destruct (truthy (get node MEDIA_NAME)); simpl;
    destruct (truthy (get node MEDIA_CLASS)); simpl; reflexivity.
Qed.

End BuilderFacts.

(** X2.  Whatever the node and the mode, [mapToAudioItem] ends normally,
    and each candidate it builds from a node carries a pattern that matches
    that node. *)
Theorem mapToAudioItem_candidates_match_node (node : Node) (granularSelect : bool) :
  ∃ items,
    mapToAudioItem (ANode node) granularSelect = Normal items
    ∧ ∀ item, item ∈ items →
        ∃ p, item_value item = ANode p ∧ hasMatchingProps p node = true.
Proof.
  destruct granularSelect.
  - rewrite mapToAudioItem_granular. eexists. split; [done|].
    intros item Hin. unfold as_items in Hin.
    apply list_elem_of_fmap in Hin as ([n p] & -> & Hin). simpl.
    exists p. split; [done|]. apply hasMatchingProps_reads.
    pose proof (base_item_reads node) as Hbase.
    rewrite !elem_of_app, !elem_of_cons in Hin.
    destruct Hin as [[Hin|[Hin|Hin]]|[Hin|Hin]].
    + assert (p = (base_item node).2) as -> by (by rewrite <- Hin). done.
    + injection Hin as -> ->. by apply insert_reads.
    + by inversion Hin.
    + destruct (truthy (get node MEDIA_NAME)); [|by inversion Hin].
      apply list_elem_of_singleton in Hin. injection Hin as -> ->.
      by apply insert_reads.
    + destruct (truthy (get node MEDIA_CLASS)); [|by inversion Hin].
      apply list_elem_of_singleton in Hin. injection Hin as -> ->.
      by apply insert_reads.
  - rewrite mapToAudioItem_not_granular. eexists. split; [done|].
    intros item Hin. destruct (truthy (get node NAME)); [|by inversion Hin].
    apply list_elem_of_singleton in Hin. subst item. simpl.
    eexists. split; [done|]. apply hasMatchingProps_reads, singleton_reads.
Qed.

(** X3.  Without granular selection a node gives one candidate, labelled
    with its application name and matching on that name alone, or none when
    the name is missing or empty.  With granular selection it gives between
    two and four candidates, the first being the base item; when the node
    has neither a name nor a binary that base item's label is [undefined]. *)
Theorem mapToAudioItem_shape (node : Node) :
  (truthy (get node NAME) = true →
   mapToAudioItem (ANode node) false
   = Normal [mkItem (get node NAME) (ANode {[ NAME := get node NAME ]})])
  ∧ (truthy (get node NAME) = false →
     mapToAudioItem (ANode node) false = Normal [])
  ∧ (∃ first rest,
       mapToAudioItem (ANode node) true = Normal (first :: rest)
       ∧ first = mkItem (base_item node).1 (ANode (base_item node).2)
       ∧ (1 ≤ length rest ≤ 3)%nat)
  ∧ (truthy (get node NAME) = false → node !! BINARY = None →
     ∃ rest,
       mapToAudioItem (ANode node) true
       = Normal (mkItem Undefined (ANode {[ BINARY := Undefined ]}) :: rest)).
Proof.
  split; [|split; [|split]].
  - intros H. by rewrite mapToAudioItem_not_granular, H.
  - intros H. by rewrite mapToAudioItem_not_granular, H.
  - rewrite mapToAudioItem_granular. unfold as_items. rewrite !fmap_app.
    eexists _, _. split; [reflexivity|]. split; [reflexivity|].
    destruct (truthy (get node MEDIA_NAME)), (truthy (get node MEDIA_CLASS));
      simpl; lia.
  - intros Hname Hbin. rewrite mapToAudioItem_granular.
    unfold base_item. rewrite Hname. unfold get at 1 2. rewrite Hbin. simpl.
    by eexists.
Qed.

(** ** Toggling *)

Section ToggleFacts.

Implicit Types (l : list Node) (n m : Node) (sel : option AudioSources).

Lemma existsb_filter_negb {A} (f : A → bool) (l : list A) :
  existsb f (List.filter (λ x, negb (f x)) l) = false.
Proof.
  induction l as [|x l IH]; simpl; [done|].
  destruct (f x) eqn:Hx; simpl; [done|]. by rewrite Hx.
Qed.

Lemma isSelected_after_append l n m :
  isSelected (Some (SNodes (l ++ [n]))) (ANode m)
  = isSelected (Some (SNodes l)) (ANode m) || hasMatchingProps n m.
Proof. simpl. rewrite existsb_app. simpl. by rewrite orb_false_r. Qed.

Lemma isSelected_after_removal l n m :
  isSelected (Some (SNodes (List.filter (λ x, negb (hasMatchingProps x n)) l)))
             (ANode m) = true
  ↔ ∃ x, x ∈ l ∧ hasMatchingProps x n = false ∧ hasMatchingProps x m = true.
Proof.
  rewrite isSelected_nodes. split.
  - intros (x & Hin & Hm). apply update_selected_elem in Hin as [Hin Hn].
    by exists x.
  - intros (x & Hin & Hn & Hm). exists x. split; [|done].
    by apply update_selected_elem.
Qed.

End ToggleFacts.

(** X4.  A click on a node candidate flips whether that candidate is
    selected, whatever was stored before; a click on a special source
    leaves that special source selected. *)
Theorem toggle_flips_isSelected :
  (∀ (sel : option AudioSources) (n : Node),
     isSelected (toggle sel (ANode n)) (ANode n)
     = negb (isSelected sel (ANode n)))
  ∧ (∀ (sel : option AudioSources) (s : SpecialSource),
       isSelected (toggle sel (ASpecial s)) (ASpecial s) = true
       ∧ ∀ v, isSelected (toggle sel (ASpecial s)) v = true → v = ASpecial s).
Proof.
  split.
  - intros [[s|l]|] n; unfold toggle.
    + simpl. by rewrite hasMatchingProps_refl.
    + destruct (isSelected (Some (SNodes l)) (ANode n)) eqn:Hsel.
      * rewrite update_selected by done. simpl. apply existsb_filter_negb.
      * rewrite update_unselected by done.
        rewrite isSelected_after_append, hasMatchingProps_refl.
        by rewrite orb_true_r.
    + simpl. by rewrite hasMatchingProps_refl.
  - intros sel s. unfold toggle. simpl. split; [by apply bool_decide_eq_true|].
    intros [s'|n] H; [|done]. apply bool_decide_eq_true in H. by subst.
Qed.

(** X5.  How a click on a node candidate [n] changes what else is
    selected.  If [n] was not selected it is appended: every candidate that
    was selected stays selected, and the candidates [n] matches become
    selected.  If [n] was selected, exactly the entries that match [n] are
    dropped, in place; so an entry more general than [n] is dropped by the
    click, and another candidate stays selected only through an entry that
    does not match [n]. *)
Theorem toggle_effect_on_other_candidates (l : list Node) (n : Node) :
  (isSelected (Some (SNodes l)) (ANode n) = false →
   update (Some (SNodes l)) (ANode n) = SNodes (l ++ [n])
   ∧ ∀ m, isSelected (toggle (Some (SNodes l)) (ANode n)) (ANode m)
          = isSelected (Some (SNodes l)) (ANode m) || hasMatchingProps n m)
  ∧ (isSelected (Some (SNodes l)) (ANode n) = true →
     (∃ l', update (Some (SNodes l)) (ANode n) = SNodes l'
            ∧ l' `sublist_of` l
            ∧ ∀ x, x ∈ l' ↔ x ∈ l ∧ hasMatchingProps x n = false)
     ∧ ∀ m, isSelected (toggle (Some (SNodes l)) (ANode n)) (ANode m) = true
            ↔ ∃ x, x ∈ l ∧ hasMatchingProps x n = false
                   ∧ hasMatchingProps x m = true).
Proof.
  split; intros Hsel; unfold toggle.
  - rewrite update_unselected by done. split; [done|].
    intros m. apply isSelected_after_append.
  - rewrite update_selected by done. split.
    + eexists. split; [done|]. split.
      * clear Hsel. induction l as [|x l IH]; simpl; [done|].
        destruct (hasMatchingProps x n); simpl;
          [by apply sublist_cons|by apply sublist_skip].
      * intros x. apply update_selected_elem.
    + intros m. apply isSelected_after_removal.
Qed.

Lemma toggle_effect_on_other_candidates_witness :
  isSelected (Some (SNodes [firefox_no_pid])) (ANode firefox_42) = true
  ∧ update (Some (SNodes [firefox_no_pid])) (ANode firefox_42) = SNodes [].
Proof.
  split; [vm_compute; reflexivity|].
  destruct (proj2 (toggle_effect_on_other_candidates [firefox_no_pid] firefox_42))
    as [(l' & -> & _ & Hl') _]; [vm_compute; reflexivity|].
  destruct l' as [|x l']; [done|].
  destruct (proj1 (Hl' x)) as [Hin Hx]; [left|].
  apply list_elem_of_singleton in Hin. subst x. vm_compute in Hx. done.
Defined.

(** ** The label filter, again *)

Lemma filter_from_all {A} (f : A → Z → list A → bool) (whole : list A) i
      (l : list A) :
  (∀ k x, l !! k = Some x → f x (i + Z.of_nat k)%Z whole = true) →
  filter_from f whole i l = l.
Proof.
  revert i. induction l as [|a l IH]; intros i H; simpl; [done|].
  pose proof (H 0%nat a eq_refl) as Ha. rewrite Z.add_0_r in Ha. rewrite Ha.
  f_equal. apply IH. intros k x Hk.
  replace (i + 1 + Z.of_nat k)%Z with (i + Z.of_nat (S k))%Z by lia.
  by apply H.
Qed.

Section UniqueNameAgain.

Implicit Types (l : list AudioItem) (x y : AudioItem) (k j : nat).

Lemma array_filter_uniqueName_NoDup l :
  NoDup (name <$> l) → array_filter uniqueName l = l.
Proof.
  intros Hnd. unfold array_filter. apply filter_from_all.
  intros k x Hk. rewrite Z.add_0_l. apply (uniqueName_first l k x Hk).
  intros j y Hj Hy Hname.
  assert (j = k); [|lia].
  apply (NoDup_lookup (name <$> l) j k (name x)); [done| |].
  - by rewrite list_lookup_fmap, Hy, <- Hname.
  - by rewrite list_lookup_fmap, Hk.
Qed.

(** The head of a list is always kept, and so is a second item with
    another label. *)
Lemma array_filter_uniqueName_two x y l :
  name x ≠ name y →
  ∃ rest, array_filter uniqueName (x :: y :: l) = x :: y :: rest.
Proof.
  intros Hne. unfold array_filter. simpl.
  assert (Hx : uniqueName x 0 (x :: y :: l) = true).
  { unfold uniqueName, findIndex. simpl. by rewrite strict_eq_refl. }
  assert (Hy : uniqueName y (0 + 1) (x :: y :: l) = true).
  { unfold uniqueName, findIndex. simpl.
    rewrite (proj2 (strict_eq_false _ _) Hne). by rewrite strict_eq_refl. }
  rewrite Hx, Hy. by eexists.
Qed.

End UniqueNameAgain.

(** X6.  Filtering by [uniqueName] changes nothing in a list whose labels
    are already distinct, and so filtering twice is filtering once. *)
Theorem array_filter_uniqueName_idempotent :
  (∀ l : list AudioItem,
     NoDup (name <$> l) → array_filter uniqueName l = l)
  ∧ (∀ l : list AudioItem,
       array_filter uniqueName (array_filter uniqueName l)
       = array_filter uniqueName l).
Proof.
  split; [exact array_filter_uniqueName_NoDup|].
  intros l. apply array_filter_uniqueName_NoDup, NoDup_array_filter_uniqueName.
Qed.

Section Options.

Implicit Types (targets : list Node) (g : bool).

Lemma map_completion_total targets g :
  ∃ ls, map_completion (λ t, mapToAudioItem t g) (ANode <$> targets) = Normal ls.
Proof.
  induction targets as [|t targets [ls IH]]; [by eexists|].
  rewrite fmap_cons. cbn [map_completion].
  destruct (mapToAudioItem_total (ANode t) g) as [items ->].
  rewrite IH. by eexists.
Qed.

(** The flattened list always starts with the two special items. *)
Lemma select_options_flat targets g :
  ∃ items,
    select_options targets g
    = Normal (array_filter uniqueName
                (mkItem (Str "None") (ASpecial SrcNone)
                 :: mkItem (Str "Entire System") (ASpecial SrcEntireSystem)
                 :: items)).
Proof.
  unfold select_options, allSources.
  cbn [app map_completion mapToAudioItem special_string].
  destruct (map_completion_total targets g) as [ls ->]. by eexists.
Qed.

End Options.

Lemma select_options_starts (targets : list Node) (granularSelect : bool) :
  ∃ rest,
    select_options targets granularSelect
    = Normal (mkItem (Str "None") (ASpecial SrcNone)
              :: mkItem (Str "Entire System") (ASpecial SrcEntireSystem)
              :: rest)
    ∧ ∀ item, item ∈ rest →
        name item ≠ Str "None" ∧ name item ≠ Str "Entire System".
Proof.
  destruct (select_options_flat targets granularSelect) as [items ->].
  pose proof (NoDup_array_filter_uniqueName
                (mkItem (Str "None") (ASpecial SrcNone)
                 :: mkItem (Str "Entire System") (ASpecial SrcEntireSystem)
                 :: items)) as Hnd.
  destruct (array_filter_uniqueName_two
              (mkItem (Str "None") (ASpecial SrcNone))
              (mkItem (Str "Entire System") (ASpecial SrcEntireSystem))
              items) as [rest Hrest]; [done|].
  rewrite Hrest in Hnd |- *. exists rest. split; [done|].
  rewrite !fmap_cons in Hnd. simpl in Hnd.
  apply NoDup_cons in Hnd as [Hnone Hnd].
  apply NoDup_cons in Hnd as [Hsys _].
  intros item Hin. split; intros Hname.
  - apply Hnone. right. rewrite <- Hname. apply list_elem_of_fmap.
    by exists item.
  - apply Hsys. rewrite <- Hname. apply list_elem_of_fmap. by exists item.
Qed.

(** X7.  The options of the picker always start with "None" and
    "Entire System", in this order, whatever the backend lists; no later
    option carries one of these two labels, so a node whose application
    name is "None" or "Entire System" yields no option under that label.
    With no targets (the list shown while loading) the two special sources
    are the only options. *)
Theorem select_options_special_first (targets : list Node) (granularSelect : bool) :
  (∃ rest,
     select_options targets granularSelect
     = Normal (mkItem (Str "None") (ASpecial SrcNone)
               :: mkItem (Str "Entire System") (ASpecial SrcEntireSystem)
               :: rest)
     ∧ ∀ item, item ∈ rest →
         name item ≠ Str "None" ∧ name item ≠ Str "Entire System")
  ∧ select_options [] granularSelect
    = Normal [ mkItem (Str "None") (ASpecial SrcNone);
               mkItem (Str "Entire System") (ASpecial SrcEntireSystem) ].
Proof.
  split; [apply select_options_starts|by vm_compute].
Qed.

(** X8.  Among the options handed to [Select], exactly one is flagged as
    the default: the first one, which is the special source "None". *)
Theorem picker_options_one_default (targets : list Node) (granularSelect : bool) :
  ∃ rest,
    picker_options targets granularSelect
    = Normal (mkOption (Str "None") (ASpecial SrcNone) true :: rest)
    ∧ ∀ o, o ∈ rest → option_default o = false.
Proof.
  destruct (select_options_starts targets granularSelect)
    as (rest & Hopts & Hrest).
  unfold picker_options. rewrite Hopts. rewrite !fmap_cons.
  eexists. split; [reflexivity|].
  intros o Hin. apply elem_of_cons in Hin as [->|Hin]; [by vm_compute|].
  apply list_elem_of_fmap in Hin as (item & -> & Hin). simpl.
  apply strict_eq_false. by apply Hrest.
Qed.

(** ** The owner of a stream key *)

Lemma last_separator (sep : ascii) (s : string) :
  contains sep s = false
  ∨ ∃ pre o, s = pre +:+ String sep o ∧ contains sep o = false.
Proof.
  induction s as [|c r [IH|(pre & o & -> & Ho)]].
  - by left.
  - simpl. destruct (Ascii.eqb c sep) eqn:Hc; [|by left].
    right. exists "", r. apply Ascii.eqb_eq in Hc. by subst.
  - right. by exists (String c pre), o.
Qed.

(** X9.  For every stream key the owner is a string, never [undefined]: it
    is what follows the last colon of the key, or the whole key when there
    is no colon.  The subscriber keeps the calls made so far and adds one
    [stop] exactly when that owner is the current user. *)
Theorem stream_owner_is_last_segment (uid key : string) (calls : list virtmic_call) :
  ∃ owner,
    stream_owner key = Str owner
    ∧ contains ":" owner = false
    ∧ (key = owner ∨ ∃ pre, key = pre +:+ ":" +:+ owner)
    ∧ on_STREAM_CLOSE uid key calls
      = calls ++ (if decide (owner = uid) then [VirtmicStop] else []).
Proof.
  assert (Hcalls : ∀ owner, stream_owner key = Str owner →
            on_STREAM_CLOSE uid key calls
            = calls ++ (if decide (owner = uid) then [VirtmicStop] else [])).
  { intros owner Howner. destruct (decide (owner = uid)) as [->|Hne].
    - by apply on_STREAM_CLOSE_owner.
    - rewrite app_nil_r. apply on_STREAM_CLOSE_other. rewrite Howner.
      congruence. }
  destruct (last_separator ":" key) as [Hfree|(pre & owner & -> & Hfree)].
  - exists key. pose proof (stream_owner_whole key Hfree) as Howner.
    repeat split; [done|done|by left|by apply Hcalls].
  - exists owner. pose proof (stream_owner_embedded pre owner Hfree) as Howner.
    repeat split; [done|done|right; by exists pre|by apply Hcalls].
Qed.

(** ** Patching stream options *)

Section PatchFacts.

Implicit Types (cs : StreamSettings) (opts : StreamOptions)
         (target : gmap string number).

Lemma assign_bitrate_idem target :
  assign_bitrate (assign_bitrate target) = assign_bitrate target.
Proof.
  apply map_eq. intros k. unfold assign_bitrate.
  rewrite !lookup_insert. repeat case_decide; done.
Qed.

Lemma assign_quality_overwrites (f1 w1 h1 f2 w2 h2 : number) target :
  assign_quality f2 w2 h2 (assign_quality f1 w1 h1 target)
  = assign_quality f2 w2 h2 target.
Proof.
  apply map_eq. intros k. unfold assign_quality.
  rewrite !lookup_insert. repeat case_decide; done.
Qed.

Lemma patchStreamQuality_state cs opts :
  (patchStreamQuality (Some cs) opts).1
  = mkOptions (assign_bitrate (own opts))
      (assign_quality (quality_framerate cs) (quality_width cs)
                      (quality_height cs) <$> encode opts)
      (assign_quality (quality_framerate cs) (quality_width cs)
                      (quality_height cs) <$> capture opts).
Proof.
  unfold patchStreamQuality. simpl.
  by destruct (encode opts), (capture opts).
Qed.

Lemma patchStreamQuality_result cs opts :
  (patchStreamQuality (Some cs) opts).2
  = match capture opts with
    | Some _ => Normal ()
    | None => Throw "TypeError: Cannot convert undefined or null to object"
    end.
Proof.
  unfold patchStreamQuality. simpl.
  by destruct (encode opts), (capture opts).
Qed.

End PatchFacts.

(** X10.  With current settings, [patchStreamQuality] ends normally exactly
    when the options object has a [capture] sub-object.  Without one it
    throws, and by then the bitrate fields and the [encode] sub-object
    have already been written: the object is left partly patched. *)
Theorem patchStreamQuality_capture_missing (cs : StreamSettings) (opts : StreamOptions) :
  ((patchStreamQuality (Some cs) opts).2 = Normal () ↔ is_Some (capture opts))
  ∧ (capture opts = None →
     patchStreamQuality (Some cs) opts
     = (mkOptions (assign_bitrate (own opts))
          (assign_quality (quality_framerate cs) (quality_width cs)
                          (quality_height cs) <$> encode opts)
          None,
        Throw "TypeError: Cannot convert undefined or null to object")).
Proof.
  split; [apply patchStreamQuality_completion|].
  intros Hcap. apply injective_projections.
  - rewrite patchStreamQuality_state, Hcap. done.
  - rewrite patchStreamQuality_result, Hcap. done.
Qed.

(** X11.  Patching an options object again, with the same or with other
    settings, gives what patching the untouched object with the later
    settings gives: the last settings win, and nothing of the earlier ones
    is left. *)
Theorem patchStreamQuality_last_wins (cs1 cs2 : StreamSettings) (opts : StreamOptions) :
  patchStreamQuality (Some cs2) (patchStreamQuality (Some cs1) opts).1
  = patchStreamQuality (Some cs2) opts.
Proof.
  apply injective_projections.
  - rewrite !patchStreamQuality_state. simpl.
    rewrite assign_bitrate_idem. f_equal.
    + destruct (encode opts); simpl; [|done].
      by rewrite assign_quality_overwrites.
    + destruct (capture opts); simpl; [|done].
      by rewrite assign_quality_overwrites.
  - rewrite !patchStreamQuality_result, patchStreamQuality_state. simpl.
    by destruct (capture opts).
Qed.

(** ** Quality at every setting *)

(** X12.  For each of the twelve settings the binary64 computation is
    exact: the frame rate and height are the integers the literals spell,
    the width is 853, 1280, 1920 or 2560, the integer nearest to
    [16 * height / 9], and the pixel count is the exact product.  The width
    is at least 640 and the height at least 480, the lower bounds of the
    constraint ranges. *)
Theorem quality_exact (cs : StreamSettings) :
  quality_framerate cs = of_Z (fps_Z (fps cs))
  ∧ quality_height cs = of_Z (resolution_Z (resolution cs))
  ∧ quality_width cs = of_Z (width_Z (resolution cs))
  ∧ width_Z (resolution cs) = round_div (16 * resolution_Z (resolution cs)) 9
  ∧ mul (quality_height cs) (quality_width cs)
    = of_Z (resolution_Z (resolution cs) * width_Z (resolution cs))
  ∧ SFleb (of_Z 640) (quality_width cs) = true
  ∧ SFleb (of_Z 480) (quality_height cs) = true.
Proof.
  unfold quality_framerate, quality_width, quality_height.
  destruct (fps cs), (resolution cs); vm_compute; repeat split; reflexivity.
Qed.

(** ** "Go Live" *)

Section GoLiveFacts.

Implicit Types (connections before rest : list EngineConnection)
         (conn : EngineConnection) (uid : string)
         (frameRate height width : number).

Lemma patch_connection_none uid frameRate height width connections :
  (∀ c, c ∈ connections → streamUserId (connection c) ≠ Str uid) →
  patch_connection uid frameRate height width connections = Normal connections.
Proof.
  induction connections as [|c connections IH]; intros Hnone; [done|].
  simpl. rewrite (proj2 (strict_eq_false _ _) (Hnone c ltac:(left))).
  rewrite IH; [done|]. intros c' Hc'. apply Hnone. by right.
Qed.

Lemma patch_connection_first uid frameRate height width before conn rest :
  (∀ c, c ∈ before → streamUserId (connection c) ≠ Str uid) →
  streamUserId (connection conn) = Str uid →
  patch_connection uid frameRate height width (before ++ conn :: rest)
  = match patch_parameters frameRate height width conn with
    | Throw e => Throw e
    | Normal conn' => Normal (before ++ conn' :: rest)
    end.
Proof.
  intros Hbefore Hconn. induction before as [|c before IH]; simpl.
  - by rewrite Hconn, strict_eq_refl.
  - rewrite (proj2 (strict_eq_false _ _) (Hbefore c ltac:(left))).
    rewrite IH; [|intros c' Hc'; apply Hbefore; by right].
    by destruct (patch_parameters frameRate height width conn).
Qed.

Lemma quality_ranges (cs : StreamSettings) :
  range_ok (CRange (of_Z 640) (quality_width cs) (quality_width cs)) = true
  ∧ range_ok (CRange (of_Z 480) (quality_height cs) (quality_height cs)) = true.
Proof.
  unfold quality_width, quality_height.
  destruct (resolution cs); vm_compute; split; reflexivity.
Qed.

End GoLiveFacts.

(** X13.  On the way without an error, "Go Live" makes the dialog's
    settings the current settings, calls [submit] with the chosen screen
    and these settings, and schedules the timer.  It writes to the first
    connection of the current user only, and there only to entry 0 of
    [videoStreamParameters]: every other connection, also a later one of
    the same user, and every other entry stay as they were.  Without such a
    connection nothing is written. *)
Theorem go_live_patches_first_connection
        (settings : StreamSettings) (selected uid : string)
        (before rest : list EngineConnection) (conn : EngineConnection)
        (p : VideoStreamParameters) (ps : list VideoStreamParameters) :
  (∀ c, c ∈ before → streamUserId (connection c) ≠ Str uid) →
  streamUserId (connection conn) = Str uid →
  videoStreamParameters conn = p :: ps →
  go_live settings selected (before ++ conn :: rest) uid
  = mkGoLive (Some settings)
      (before
       ++ mkEngineConnection (connection conn)
            (mkParameters (quality_framerate settings)
               (mkResolution (quality_height settings) (quality_width settings))
             :: ps)
       :: rest)
      (Some (mkPick selected settings))
      (Some (quality_framerate settings, quality_width settings,
             quality_height settings))
      []
  ∧ go_live settings selected before uid
    = mkGoLive (Some settings) before (Some (mkPick selected settings))
        (Some (quality_framerate settings, quality_width settings,
               quality_height settings))
        [].
Proof.
  intros Hbefore Hconn Hparams. unfold go_live. split.
  - rewrite (patch_connection_first _ _ _ _ _ _ _ Hbefore Hconn).
    unfold patch_parameters. by rewrite Hparams.
  - by rewrite (patch_connection_none _ _ _ _ _ Hbefore).
Qed.

Lemma go_live_patches_first_connection_witness :
  connections_after
    (go_live (mkSettings R720 F30 true None None) "screen:0"
       ([mkEngineConnection (mkConnection Undefined []) []]
        ++ mkEngineConnection (mkConnection (Str "42") [])
             [mkParameters (of_Z 0) (mkResolution (of_Z 0) (of_Z 0));
              mkParameters (of_Z 1) (mkResolution (of_Z 2) (of_Z 3))]
        :: [mkEngineConnection (mkConnection (Str "42") [])
              [mkParameters (of_Z 4) (mkResolution (of_Z 5) (of_Z 6))]])
       "42")
  = [mkEngineConnection (mkConnection Undefined []) [];
     mkEngineConnection (mkConnection (Str "42") [])
       [mkParameters (of_Z 30) (mkResolution (of_Z 720) (of_Z 1280));
        mkParameters (of_Z 1) (mkResolution (of_Z 2) (of_Z 3))];
     mkEngineConnection (mkConnection (Str "42") [])
       [mkParameters (of_Z 4) (mkResolution (of_Z 5) (of_Z 6))]].
Proof.
  rewrite (proj1 (go_live_patches_first_connection
                    (mkSettings R720 F30 true None None) "screen:0" "42"
                    [mkEngineConnection (mkConnection Undefined []) []]
                    [mkEngineConnection (mkConnection (Str "42") [])
                       [mkParameters (of_Z 4) (mkResolution (of_Z 5) (of_Z 6))]]
                    (mkEngineConnection (mkConnection (Str "42") [])
                       [mkParameters (of_Z 0) (mkResolution (of_Z 0) (of_Z 0));
                        mkParameters (of_Z 1) (mkResolution (of_Z 2) (of_Z 3))])
                    (mkParameters (of_Z 0) (mkResolution (of_Z 0) (of_Z 0)))
                    [mkParameters (of_Z 1) (mkResolution (of_Z 2) (of_Z 3))]
                    ltac:(intros c Hc; apply list_elem_of_singleton in Hc;
                          subst c; discriminate)
                    eq_refl eq_refl)).
  vm_compute. reflexivity.
Defined.

(** X14.  When the current user's connection has an empty
    [videoStreamParameters], the first write throws inside the handler's
    [try]: the error is logged, [submit] is not called and no timer is
    scheduled, the connections are untouched, yet the current settings have
    been replaced.  As [close()] still runs, the picker's promise is
    rejected with "Aborted" and the backend is not called. *)
Theorem go_live_without_parameters
        (settings : StreamSettings) (selected uid : string)
        (before rest : list EngineConnection) (conn : EngineConnection) :
  (∀ c, c ∈ before → streamUserId (connection c) ≠ Str uid) →
  streamUserId (connection conn) = Str uid →
  videoStreamParameters conn = [] →
  go_live settings selected (before ++ conn :: rest) uid
  = mkGoLive (Some settings) (before ++ conn :: rest) None None
      [LogError "Error while submitting stream."]
  ∧ picker_go_live (go_live settings selected (before ++ conn :: rest) uid)
                   openScreenSharePicker
    = mkPicker false (Rejected "Aborted") [] None
  ∧ run_timer (go_live settings selected (before ++ conn :: rest) uid)
              (before ++ conn :: rest) uid
    = ([], Normal ()).
Proof.
  intros Hbefore Hconn Hparams.
  assert (Hgo : go_live settings selected (before ++ conn :: rest) uid
                = mkGoLive (Some settings) (before ++ conn :: rest) None None
                    [LogError "Error while submitting stream."]).
  { unfold go_live.
    rewrite (patch_connection_first _ _ _ _ _ _ _ Hbefore Hconn).
    unfold patch_parameters. by rewrite Hparams. }
  rewrite Hgo. done.
Qed.

Lemma go_live_without_parameters_witness :
  picked (picker_go_live
            (go_live (mkSettings R1080 F60 true None None) "screen:0"
               ([] ++ mkEngineConnection (mkConnection (Str "42") []) [] :: [])
               "42")
            openScreenSharePicker)
  = Rejected "Aborted".
Proof.
  rewrite (proj1 (proj2 (go_live_without_parameters
                           (mkSettings R1080 F60 true None None) "screen:0" "42"
                           [] []
                           (mkEngineConnection (mkConnection (Str "42") []) [])
                           ltac:(intros c Hc; inversion Hc)
                           eq_refl eq_refl))).
  reflexivity.
Defined.



(** ** The picker's promise *)

Section PickerFacts.

Implicit Types (p : Picker) (e : picker_event) (events : list picker_event)
         (v : StreamPick).

Lemma settle_settled (pr outcome : promise) : pr ≠ Pending → settle pr outcome = pr.
Proof. by destruct pr. Qed.

Lemma picker_step_settled p e :
  picked p ≠ Pending → picked (picker_step p e) = picked p.
Proof.
  intros Hp. destruct e as [v|fulfilled| |]; simpl.
  - unfold picker_submit. destruct (wants_audio _); simpl; [done|].
    by apply settle_settled.
  - unfold picker_started. destruct (awaiting p); simpl; [|done].
    destruct fulfilled; [by apply settle_settled|done].
  - unfold picker_close. destruct (didSubmit p); simpl; [done|].
    by apply settle_settled.
  - by apply settle_settled.
Qed.

Lemma picker_step_didSubmit p e :
  didSubmit p = true → didSubmit (picker_step p e) = true.
Proof.
  intros Hp. destruct e as [v|fulfilled| |]; simpl.
  - unfold picker_submit. by destruct (wants_audio _).
  - unfold picker_started. by destruct (awaiting p).
  - unfold picker_close. by rewrite Hp.
  - done.
Qed.

Lemma picker_close_submitted p :
  didSubmit p = true → picker_close p = p.
Proof. intros Hp. unfold picker_close. by rewrite Hp. Qed.

End PickerFacts.

(** X16.  The picker's promise is settled at most once: once it is
    resolved or rejected, no later [submit], backend answer, [close] or
    close request changes it.  And once [submit] has run, [close] never
    rejects. *)
Theorem picker_promise_settles_once (p : Picker) (events : list picker_event) :
  (picked p ≠ Pending → picked (picker_run p events) = picked p)
  ∧ (didSubmit p = true → picker_close (picker_run p events) = picker_run p events).
Proof.
  split.
  - revert p. induction events as [|e events IH]; intros p Hp; [done|].
    simpl. rewrite IH; [by apply picker_step_settled|].
    by rewrite picker_step_settled.
  - intros Hp. apply picker_close_submitted. revert p Hp.
    induction events as [|e events IH]; intros p Hp; [done|].
    simpl. apply IH. by apply picker_step_didSubmit.
Qed.

(** X17.  What the caller of the picker gets.  Closing a fresh picker
    rejects with "Aborted".  A "Go Live" that reaches [submit] without an
    audio selection ("None" or nothing stored) resolves at once and calls
    no backend function.  With an audio selection the backend is called
    once and the promise stays pending through [close()]: it is resolved
    when the backend call is fulfilled; when that call is rejected the
    promise is still pending, and closing again does not settle it. *)
Theorem picker_go_live_outcome (g : GoLive) (v : StreamPick) :
  submitted g = Some v →
  picked (picker_close openScreenSharePicker) = Rejected "Aborted"
  ∧ (wants_audio (pick_settings v) = false →
     picker_go_live g openScreenSharePicker = mkPicker true (Resolved v) [] None)
  ∧ (wants_audio (pick_settings v) = true →
     picker_go_live g openScreenSharePicker
     = mkPicker true Pending (submit (pick_settings v) []) (Some v)
     ∧ length (submit (pick_settings v) []) = 1%nat
     ∧ picked (picker_started true (picker_go_live g openScreenSharePicker))
       = Resolved v
     ∧ ∀ n, picked (picker_run
                      (picker_started false
                         (picker_go_live g openScreenSharePicker))
                      (repeat EvClose n))
            = Pending).
Proof.
  intros Hg. split; [done|]. unfold picker_go_live. rewrite Hg.
  unfold picker_submit. split; intros Hw; rewrite Hw; [done|].
  split; [done|]. split.
  - unfold wants_audio in Hw. unfold submit.
    destruct (audioSources (pick_settings v)) as [[[]|]|]; done.
  - split; [done|]. intros n. simpl.
    induction n as [|n IH]; [done|]. simpl. exact IH.
Qed.

Lemma picker_go_live_outcome_witness :
  picker_go_live
    (go_live (mkSettings R1080 F60 true (Some (SSpecial SrcEntireSystem)) None)
             "screen:0" [] "42")
    openScreenSharePicker
  = mkPicker true Pending [VirtmicStartSystem]
      (Some (mkPick "screen:0"
               (mkSettings R1080 F60 true (Some (SSpecial SrcEntireSystem)) None))).
Proof.
  destruct (picker_go_live_outcome
              (go_live (mkSettings R1080 F60 true
                          (Some (SSpecial SrcEntireSystem)) None)
                       "screen:0" [] "42")
              (mkPick "screen:0"
                 (mkSettings R1080 F60 true (Some (SSpecial SrcEntireSystem)) None))
              eq_refl) as (_ & _ & Haudio).
  destruct (Haudio eq_refl) as [Hgo _]. exact Hgo.
Defined.
